(** * Snake: a shallow embedding of the game core

    The development follows the Python sources [src/config.py],
    [src/snake.py], [src/food.py], [src/game.py] and [src/utils.py], and
    the single-file version of the game, [snake_game.py].  Python integers are
    unbounded, so grid coordinates, scores and frame rates are [Z]; a grid
    position is a pair of integers compared by value; a Python list is a
    [list].  Operations that can raise ([body[0]] on an empty list,
    [random.randint] on an empty range) return [option], [None] standing for
    the raised exception.  Rendering, fonts and audio are not modelled. *)

From Stdlib Require Import String ZArith List Bool Lia.
Import ListNotations.
Local Open Scope Z_scope.

(** Exceptions abort the enclosing call: the option monad. *)
Definition bind {A B : Type} (m : option A) (k : A -> option B) : option B :=
  match m with
  | Some a => k a
  | None => None
  end.

Notation "x <- m ;; k" := (bind m (fun x => k))
  (at level 61, m at next level, right associativity).
Notation "' p <- m ;; k" := (bind m (fun x => match x with p => k end))
  (at level 61, p pattern, m at next level, right associativity).

(** ** Positions *)

Definition Pos : Type := (Z * Z)%type.

Definition pos_eqb (p q : Pos) : bool :=
  (fst p =? fst q) && (snd p =? snd q).

(** [p in l] on a Python list of tuples. *)
Definition pos_in (p : Pos) (l : list Pos) : bool := existsb (pos_eqb p) l.

(** [l[i]] on a Python list: a negative index counts from the end, and an
    index outside [-len(l), len(l) - 1] raises [IndexError] ([None]). *)
Definition py_nth {A : Type} (l : list A) (i : Z) : option A :=
  if i <? 0 then
    if Z.of_nat (List.length l) + i <? 0 then None
    else nth_error l (Z.to_nat (Z.of_nat (List.length l) + i))
  else nth_error l (Z.to_nat i).

(** ** config.py *)

Module Config.

Definition GRID_WIDTH : Z := 30.
Definition GRID_HEIGHT : Z := 15.
Definition CELL_SIZE : Z := 32.

Definition INITIAL_SNAKE_LENGTH : nat := 3.
Definition INITIAL_SNAKE_POSITION : Pos := (20, 11).

Definition INITIAL_FPS : Z := 4.
Definition MAX_FPS : Z := 15.
Definition SPEED_INCREASE_INTERVAL : Z := 30.
Definition SPEED_INCREASE_AMOUNT : Z := 1.

Definition NORMAL_FOOD_VALUE : Z := 10.
Definition COOKIE_FOOD_VALUE : Z := 20.
Definition COOKIE_LIFETIME : Z := 4.

Definition UP : Pos := (0, -1).
Definition DOWN : Pos := (0, 1).
Definition LEFT : Pos := (-1, 0).
Definition RIGHT : Pos := (1, 0).

End Config.

(** ** snake.py *)

Module Snake.
Import Config.

Record t : Type := mk {
  playable_start_x : Z;
  playable_start_y : Z;
  playable_width : Z;
  playable_height : Z;
  body : list Pos;
  direction : Pos;
  next_direction : Pos;
  grow_pending : bool
}.

Definition set_body (s : t) (b : list Pos) : t :=
  mk (playable_start_x s) (playable_start_y s) (playable_width s)
     (playable_height s) b (direction s) (next_direction s) (grow_pending s).

Definition set_direction (s : t) (d : Pos) : t :=
  mk (playable_start_x s) (playable_start_y s) (playable_width s)
     (playable_height s) (body s) d (next_direction s) (grow_pending s).

Definition set_next_direction (s : t) (d : Pos) : t :=
  mk (playable_start_x s) (playable_start_y s) (playable_width s)
     (playable_height s) (body s) (direction s) d (grow_pending s).

Definition set_grow_pending (s : t) (g : bool) : t :=
  mk (playable_start_x s) (playable_start_y s) (playable_width s)
     (playable_height s) (body s) (direction s) (next_direction s) g.

(** [for i in range(INITIAL_SNAKE_LENGTH): self.body.append(...)] *)
Definition _initialize_body (s : t) : t :=
  let '(start_x, start_y) := INITIAL_SNAKE_POSITION in
  set_body s
    (fold_left
       (fun b i => b ++ [(start_x - Z.of_nat i, start_y)])
       (seq 0 INITIAL_SNAKE_LENGTH) (body s)).

(** [Snake.__init__], restricted to the fields the game logic reads. *)
Definition init (psx psy pw ph : Z) : t :=
  _initialize_body (mk psx psy pw ph [] RIGHT RIGHT false).

Definition opposite (d : Pos) : Pos := (- fst d, - snd d).

Definition update_direction (s : t) (new_direction : Pos) : t :=
  if (1 <? length (body s))%nat
     && pos_eqb new_direction (opposite (direction s))
  then s
  else set_next_direction s new_direction.

Definition _is_valid_position (s : t) (pos : Pos) : bool :=
  let '(x, y) := pos in
  ((playable_start_x s <=? x) && (x <? playable_start_x s + playable_width s))
  && ((playable_start_y s <=? y) && (y <? playable_start_y s + playable_height s)).

(** [move] returns [None] when [self.body[0]] raises [IndexError]. *)
Definition move (s : t) : option (bool * t) :=
  let s := set_direction s (next_direction s) in
  match body s with
  | [] => None
  | (head_x, head_y) :: _ =>
      let new_head := (head_x + fst (direction s), head_y + snd (direction s)) in
      if negb (_is_valid_position s new_head) then Some (false, s)
      else if pos_in new_head (body s) then Some (false, s)
      else
        let s := set_body s (new_head :: body s) in
        if negb (grow_pending s)
        then Some (true, set_body s (removelast (body s)))
        else Some (true, set_grow_pending s false)
  end.

Definition grow (s : t) : t := set_grow_pending s true.

Definition get_head_position (s : t) : option Pos := hd_error (body s).

Definition get_body_positions (s : t) : list Pos := body s.

Definition get_length (s : t) : nat := length (body s).

Definition reset (s : t) : t :=
  let s := set_body s [] in
  let s := set_direction s RIGHT in
  let s := set_next_direction s RIGHT in
  let s := set_grow_pending s false in
  _initialize_body s.

(** [_get_body_segment_type]: the sprite kind of the body cell at
    [segment_index]; [None] when an index raises. *)
Definition _get_body_segment_type (s : t) (segment_index : Z) : option string :=
  if (segment_index =? 0)
     || (Z.of_nat (List.length (body s)) - 1 <=? segment_index)
  then Some "horizontal"%string
  else
    current <- py_nth (body s) segment_index ;;
    prev <- py_nth (body s) (segment_index - 1) ;;
    next_seg <- py_nth (body s) (segment_index + 1) ;;
    let from_prev := (fst current - fst prev, snd current - snd prev) in
    let to_next := (fst next_seg - fst current, snd next_seg - snd current) in
    if pos_eqb from_prev to_next then
      if negb (fst from_prev =? 0) then Some "horizontal"%string
      else Some "vertical"%string
    else Some "horizontal"%string.

End Snake.

(** ** The [random] module

    One call of [Food.generate] consumes one [random.random()] and, per
    attempt, two [random.randint]s.  The outcomes are an explicit input:
    [cookie_roll] is the truth value of
    [random.random() < COOKIE_SPAWN_CHANCE], and [cell i] is the entropy
    behind the two [randint] calls of attempt [i]. *)

Module Random.

Record Rng : Type := mkRng {
  cookie_roll : bool;
  cell : nat -> Z * Z
}.

(** [random.randint(a, b)]: [ValueError] on an empty range, otherwise an
    integer of [[a, b]]; every such integer is the image of some [r]. *)
Definition randint (a b r : Z) : option Z :=
  if b <? a then None else Some (a + r mod (b - a + 1)).

End Random.

(** ** food.py *)

Module Food.
Import Config Random.

Record t : Type := mk {
  playable_start_x : Z;
  playable_start_y : Z;
  playable_width : Z;
  playable_height : Z;
  position : option Pos;
  food_type : string;
  value : Z;
  lifetime : Z;
  is_expired : bool
}.

Definition set_position (f : t) (p : option Pos) : t :=
  mk (playable_start_x f) (playable_start_y f) (playable_width f)
     (playable_height f) p (food_type f) (value f) (lifetime f) (is_expired f).

Definition set_food_type (f : t) (k : string) : t :=
  mk (playable_start_x f) (playable_start_y f) (playable_width f)
     (playable_height f) (position f) k (value f) (lifetime f) (is_expired f).

Definition set_value (f : t) (v : Z) : t :=
  mk (playable_start_x f) (playable_start_y f) (playable_width f)
     (playable_height f) (position f) (food_type f) v (lifetime f) (is_expired f).

Definition set_lifetime (f : t) (n : Z) : t :=
  mk (playable_start_x f) (playable_start_y f) (playable_width f)
     (playable_height f) (position f) (food_type f) (value f) n (is_expired f).

Definition set_is_expired (f : t) (e : bool) : t :=
  mk (playable_start_x f) (playable_start_y f) (playable_width f)
     (playable_height f) (position f) (food_type f) (value f) (lifetime f) e.

(** [Food.__init__], restricted to the fields the game logic reads. *)
Definition init (psx psy pw ph : Z) : t :=
  mk psx psy pw ph None "normal" NORMAL_FOOD_VALUE 0 false.

Definition _is_valid_position (f : t) (pos : Pos) : bool :=
  let '(x, y) := pos in
  ((playable_start_x f <=? x) && (x <? playable_start_x f + playable_width f))
  && ((playable_start_y f <=? y) && (y <? playable_start_y f + playable_height f)).

Definition _get_random_position
    (f : t) (exclude_positions : list Pos) (r : Z * Z) : option Pos :=
  x <- randint (playable_start_x f)
               (playable_start_x f + playable_width f - 1) (fst r) ;;
  y <- randint (playable_start_y f)
               (playable_start_y f + playable_height f - 1) (snd r) ;;
  Some (x, y).

Definition max_attempts : nat := 1000.

(** The [while attempts < max_attempts] loop of [generate], followed by
    the fallback assignment; [remaining] is [max_attempts - attempts]. *)
Fixpoint generate_loop (f : t) (exclude_positions : list Pos)
    (cell : nat -> Z * Z) (attempts remaining : nat) : option Pos :=
  match remaining with
  | O => Some (5, 5)
  | S remaining' =>
      new_position <- _get_random_position f exclude_positions (cell attempts) ;;
      if _is_valid_position f new_position
         && negb (pos_in new_position exclude_positions)
      then Some new_position
      else generate_loop f exclude_positions cell (S attempts) remaining'
  end.

Definition generate (f : t) (exclude_positions : list Pos)
    (current_fps : Z) (rng : Rng) : option (Pos * t) :=
  let f :=
    if cookie_roll rng then
      let f := set_food_type f "cookie" in
      let f := set_value f COOKIE_FOOD_VALUE in
      set_lifetime f (COOKIE_LIFETIME * current_fps)
    else
      let f := set_food_type f "normal" in
      let f := set_value f NORMAL_FOOD_VALUE in
      let f := set_lifetime f 0 in
      set_is_expired f false in
  p <- generate_loop f exclude_positions (cell rng) 0 max_attempts ;;
  Some (p, set_position f (Some p)).

Definition get_position (f : t) : option Pos := position f.

Definition get_value (f : t) : Z := value f.

Definition is_cookie (f : t) : bool := String.eqb (food_type f) "cookie".

Definition update (f : t) : t :=
  if String.eqb (food_type f) "cookie" && (0 <? lifetime f) then
    let f := set_lifetime f (lifetime f - 1) in
    if lifetime f <=? 0
    then set_position (set_is_expired f true) None
    else f
  else f.

Definition is_eaten (f : t) (snake_head_position : Pos) : bool :=
  match position f with
  | None => false
  | Some p => pos_eqb snake_head_position p
  end.

Definition reset (f : t) : t :=
  let f := set_position f None in
  let f := set_food_type f "normal" in
  let f := set_value f NORMAL_FOOD_VALUE in
  let f := set_lifetime f 0 in
  set_is_expired f false.

End Food.

(** ** game.py *)

Module GameState.
Definition MENU : string := "menu".
Definition PLAYING : string := "playing".
Definition PAUSED : string := "paused".
Definition GAME_OVER : string := "game_over".
End GameState.

Module Game.
Import Config Random GameState.

Record t : Type := mk {
  state : string;
  score : Z;
  high_score : Z;
  current_fps : Z;
  snake : Snake.t;
  food : Food.t
}.

Definition set_state (g : t) (st : string) : t :=
  mk st (score g) (high_score g) (current_fps g) (snake g) (food g).

Definition set_score (g : t) (n : Z) : t :=
  mk (state g) n (high_score g) (current_fps g) (snake g) (food g).

Definition set_high_score (g : t) (n : Z) : t :=
  mk (state g) (score g) n (current_fps g) (snake g) (food g).

Definition set_current_fps (g : t) (n : Z) : t :=
  mk (state g) (score g) (high_score g) n (snake g) (food g).

Definition set_snake (g : t) (s : Snake.t) : t :=
  mk (state g) (score g) (high_score g) (current_fps g) s (food g).

Definition set_food (g : t) (f : Food.t) : t :=
  mk (state g) (score g) (high_score g) (current_fps g) (snake g) f.

Definition _generate_food (g : t) (rng : Rng) : option t :=
  let snake_positions := Snake.get_body_positions (snake g) in
  '(_, f) <- Food.generate (food g) snake_positions (current_fps g) rng ;;
  Some (set_food g f).

(** [SnakeGame.__init__]: playable area 30 x 15 with origin (5, 4). *)
Definition init (rng : Rng) : option t :=
  _generate_food
    (mk MENU 0 0 INITIAL_FPS (Snake.init 5 4 30 15) (Food.init 5 4 30 15))
    rng.

Definition _update_speed (g : t) : t :=
  let speed_increases := score g / SPEED_INCREASE_INTERVAL in
  let new_fps := INITIAL_FPS + speed_increases * SPEED_INCREASE_AMOUNT in
  set_current_fps g (Z.min new_fps MAX_FPS).

Definition _eat_food (g : t) : t :=
  let g := set_score g (score g + Food.get_value (food g)) in
  let g :=
    if Food.is_cookie (food g)
    then set_snake g (Snake.grow (Snake.grow (snake g)))
    else set_snake g (Snake.grow (snake g)) in
  _update_speed g.

Definition _game_over (g : t) : t :=
  let g := set_state g GAME_OVER in
  if high_score g <? score g then set_high_score g (score g) else g.

(** One simulation step, in the two parts of the source: the food part
    ([self.food.update()] and the re-spawn of an expired food), then the
    snake part (the move, game over, and the meal).  [respawn] feeds the
    re-spawn after an expiry, [eaten] the spawn after a meal. *)
Definition _update_game_food (g : t) (respawn : Rng) : option t :=
  let g := set_food g (Food.update (food g)) in
  if Food.is_expired (food g) then _generate_food g respawn else Some g.

Definition _update_game_snake (g : t) (eaten : Rng) : option t :=
  '(moved, s) <- Snake.move (snake g) ;;
  let g := set_snake g s in
  if negb moved then Some (_game_over g)
  else
    head <- Snake.get_head_position (snake g) ;;
    if Food.is_eaten (food g) head
    then _generate_food (_eat_food g) eaten
    else Some g.

Definition _update_game (g : t) (respawn eaten : Rng) : option t :=
  g <- _update_game_food g respawn ;;
  _update_game_snake g eaten.

Definition _update (g : t) (respawn eaten : Rng) : option t :=
  if String.eqb (state g) PLAYING then _update_game g respawn eaten
  else Some g.

Definition _start_game (g : t) (rng : Rng) : option t :=
  let g := set_state g PLAYING in
  let g := set_score g 0 in
  let g := set_current_fps g INITIAL_FPS in
  let g := set_snake g (Snake.reset (snake g)) in
  _generate_food g rng.

Definition _pause_game (g : t) : t := set_state g PAUSED.

Definition _resume_game (g : t) : t := set_state g PLAYING.

Definition _restart_game (g : t) (rng : Rng) : option t := _start_game g rng.

Definition _return_to_menu (g : t) : t :=
  let g := set_state g MENU in
  let g := set_snake g (Snake.reset (snake g)) in
  let g := set_score g 0 in
  set_current_fps g INITIAL_FPS.

(** The keys that [_handle_keydown] distinguishes; any other key code is
    [K_other]. *)
Inductive Key : Type :=
| K_SPACE | K_RETURN | K_ESCAPE | K_r
| K_UP | K_DOWN | K_LEFT | K_RIGHT
| K_w | K_s | K_a | K_d
| K_other (code : Z).

(** What a key press leaves behind: the session, the end of the process
    ([sys.exit()]), or an exception. *)
Inductive outcome : Type :=
| Continue (g : t)
| Exit
| Raise.

Definition of_option (r : option t) : outcome :=
  match r with
  | Some g => Continue g
  | None => Raise
  end.

(** The dictionary [direction_map] of [_handle_movement_key]. *)
Definition direction_map (key : Key) : option Pos :=
  match key with
  | K_UP => Some (0, -1)
  | K_DOWN => Some (0, 1)
  | K_LEFT => Some (-1, 0)
  | K_RIGHT => Some (1, 0)
  | K_w => Some (0, -1)
  | K_s => Some (0, 1)
  | K_a => Some (-1, 0)
  | K_d => Some (1, 0)
  | _ => None
  end.

Definition _handle_movement_key (g : t) (key : Key) : t :=
  match direction_map key with
  | Some d => set_snake g (Snake.update_direction (snake g) d)
  | None => g
  end.

Definition _handle_keydown (g : t) (key : Key) (rng : Rng) : outcome :=
  if String.eqb (state g) MENU then
    match key with
    | K_SPACE | K_RETURN => of_option (_start_game g rng)
    | K_ESCAPE => Exit
    | _ => Continue g
    end
  else if String.eqb (state g) PLAYING then
    match key with
    | K_SPACE => Continue (_pause_game g)
    | K_ESCAPE => Continue (_return_to_menu g)
    | _ => Continue (_handle_movement_key g key)
    end
  else if String.eqb (state g) PAUSED then
    match key with
    | K_SPACE => Continue (_resume_game g)
    | K_ESCAPE => Continue (_return_to_menu g)
    | _ => Continue g
    end
  else if String.eqb (state g) GAME_OVER then
    match key with
    | K_r => of_option (_restart_game g rng)
    | K_ESCAPE => Continue (_return_to_menu g)
    | _ => Continue g
    end
  else Continue g.

End Game.

(** ** utils.py *)

Module Utils.
Import Config Random.

Definition grid_to_pixel (grid_pos : Pos) : Pos :=
  let '(x, y) := grid_pos in
  (x * CELL_SIZE, y * CELL_SIZE).

Definition pixel_to_grid (pixel_pos : Pos) : Pos :=
  let '(x, y) := pixel_pos in
  (x / CELL_SIZE, y / CELL_SIZE).

Definition is_valid_position (pos : Pos) : bool :=
  let '(x, y) := pos in
  ((1 <=? x) && (x <? GRID_WIDTH - 1)) && ((1 <=? y) && (y <? GRID_HEIGHT - 1)).

Definition clamp_position (pos : Pos) : Pos :=
  let '(x, y) := pos in
  (Z.max 0 (Z.min x (GRID_WIDTH - 1)), Z.max 0 (Z.min y (GRID_HEIGHT - 1))).

(** [get_random_position]: a [while True] loop that draws until a cell is
    not excluded.  [fuel] bounds the number of iterations that are run;
    [None] means that the loop is still running after [fuel] draws. *)
Fixpoint get_random_position (exclude_positions : list Pos)
    (cell : nat -> Z * Z) (attempts fuel : nat) : option Pos :=
  match fuel with
  | O => None
  | S fuel' =>
      match randint 1 (GRID_WIDTH - 2) (fst (cell attempts)),
            randint 1 (GRID_HEIGHT - 2) (snd (cell attempts)) with
      | Some x, Some y =>
          if negb (pos_in (x, y) exclude_positions) then Some (x, y)
          else get_random_position exclude_positions cell (S attempts) fuel'
      | _, _ => None
      end
  end.

End Utils.

(** ** snake_game.py

    The single-file version of the game.  Its grid size is computed from the
    screen size when the module is loaded, so the functions below take
    [GRID_WIDTH] and [GRID_HEIGHT] as arguments.  Sounds, fonts and drawing
    are not modelled; the file [high_score.txt] is the field
    [high_score_file]. *)

Module Legacy.
Import Random.

Definition TILE_SIZE : Z := 8.
Definition SCALE : Z := 4.
Definition SCALED_TILE_SIZE : Z := TILE_SIZE * SCALE.
Definition PADDING_TILES : Z := 4.
Definition SIDEBAR_WIDTH : Z := 8.

Definition GRID_WIDTH (screen_width : Z) : Z :=
  Z.max (screen_width / SCALED_TILE_SIZE - PADDING_TILES - SIDEBAR_WIDTH) 20.

Definition GRID_HEIGHT (screen_height : Z) : Z :=
  Z.max (screen_height / SCALED_TILE_SIZE - PADDING_TILES) 15.

(** How a call ends: with a result, with an exception, or not within the
    number of loop iterations that are run. *)
Inductive outcome (A : Type) : Type :=
| Returned (a : A)
| Raises
| Spins.
Arguments Returned {A} a.
Arguments Raises {A}.
Arguments Spins {A}.

Inductive Direction : Type := UP | DOWN | LEFT | RIGHT.

Definition value (d : Direction) : Pos :=
  match d with
  | UP => (0, -1)
  | DOWN => (0, 1)
  | LEFT => (-1, 0)
  | RIGHT => (1, 0)
  end.

Definition dir_eqb (a b : Direction) : bool :=
  match a, b with
  | UP, UP | DOWN, DOWN | LEFT, LEFT | RIGHT, RIGHT => true
  | _, _ => false
  end.

Record Snake : Type := mkSnake {
  body : list Pos;
  direction : Direction;
  next_direction : Direction
}.


Definition can_change_direction (s : Snake) (new_direction : Direction) : bool :=
  if (dir_eqb (direction s) UP && dir_eqb new_direction DOWN)
     || (dir_eqb (direction s) DOWN && dir_eqb new_direction UP)
     || (dir_eqb (direction s) LEFT && dir_eqb new_direction RIGHT)
     || (dir_eqb (direction s) RIGHT && dir_eqb new_direction LEFT)
  then false
  else true.

(** [Snake.move]; [None] when [self.body[0]] raises. *)
Definition move (s : Snake) : option Snake :=
  let s :=
    if can_change_direction s (next_direction s)
    then mkSnake (body s) (next_direction s) (next_direction s)
    else s in
  match body s with
  | [] => None
  | head :: _ =>
      let new_head :=
        (fst head + fst (value (direction s)),
         snd head + snd (value (direction s))) in
      Some (mkSnake (removelast (new_head :: body s))
              (direction s) (next_direction s))
  end.

Definition set_direction (s : Snake) (new_direction : Direction) : Snake :=
  if can_change_direction s new_direction
  then mkSnake (body s) (direction s) new_direction
  else s.

(** [Snake.grow]; [None] when [self.body[-1]] raises. *)
Definition grow (s : Snake) : option Snake :=
  match body s with
  | [] => None
  | first :: others =>
      Some (mkSnake (body s ++ [last others first])
              (direction s) (next_direction s))
  end.

Record Food : Type := mkFood {
  position : Pos;
  sprite_name : string;
  points : Z
}.

(** The draws of one [Food(...)] call: the entropy of the two [randint]s
    of each pass of the loop, and whether [random.choice] picked the
    cookie. *)
Record Draws : Type := mkDraws {
  cell : nat -> Z * Z;
  picked_cookie : bool
}.

Section Grid.
Variables W H : Z.

(** [Food.generate_position], run for at most [fuel] passes of its
    [while True] loop. *)
Fixpoint generate_position (snake_body : list Pos) (cell : nat -> Z * Z)
    (attempts fuel : nat) : outcome Pos :=
  match fuel with
  | O => Spins
  | S fuel' =>
      match randint 1 (W - 2) (fst (cell attempts)) with
      | None => Raises
      | Some x =>
          match randint 1 (H - 1) (snd (cell attempts)) with
          | None => Raises
          | Some y =>
              if negb (pos_in (x, y) snake_body) then Returned (x, y)
              else generate_position snake_body cell (S attempts) fuel'
          end
      end
  end.

(** [Food.__init__] *)
Definition Food_init (snake_body : list Pos) (d : Draws) (fuel : nat)
    : outcome Food :=
  match generate_position snake_body (cell d) 0 fuel with
  | Returned p =>
      let sprite_name := if picked_cookie d then "cookie"%string
                         else "cherry"%string in
      Returned (mkFood p sprite_name
                  (if String.eqb sprite_name "cherry" then 10 else 20))
  | Raises => Raises
  | Spins => Spins
  end.

Definition max_fps : Z := 12.
Definition fps_increment : Z := 1.
Definition food_per_level : Z := 3.

Record Game : Type := mkGame {
  snake : Snake;
  food : Food;
  score : Z;
  high_score : Z;
  game_over : bool;
  paused : bool;
  game_started : bool;
  food_count : Z;
  current_fps : Z;
  high_score_file : option Z
}.

(** The wall test of [update]. *)
Definition hits_wall (head : Pos) : bool :=
  (fst head <? 1) || (W - 1 <=? fst head)
  || (snd head <? 1) || (H - 1 <? snd head).

(** [SnakeGame.save_high_score]: a failed write is swallowed. *)
Definition save_high_score (g : Game) (disk_ok : bool) : Game :=
  if disk_ok
  then mkGame (snake g) (food g) (score g) (high_score g) (game_over g)
         (paused g) (game_started g) (food_count g) (current_fps g)
         (Some (high_score g))
  else g.

Definition set_game_over (g : Game) : Game :=
  mkGame (snake g) (food g) (score g) (high_score g) true
    (paused g) (game_started g) (food_count g) (current_fps g)
    (high_score_file g).

(** [SnakeGame.update] *)
Definition update (g : Game) (d : Draws) (fuel : nat) (disk_ok : bool)
    : outcome Game :=
  if game_over g || paused g then Returned g
  else
    match move (snake g) with
    | None => Raises
    | Some s =>
        let g := mkGame s (food g) (score g) (high_score g) (game_over g)
                   (paused g) (game_started g) (food_count g) (current_fps g)
                   (high_score_file g) in
        match body (snake g) with
        | [] => Raises
        | head :: others =>
            if hits_wall head then Returned (set_game_over g)
            else if pos_in head others then Returned (set_game_over g)
            else if pos_eqb head (position (food g)) then
              match grow (snake g) with
              | None => Raises
              | Some s =>
                  let score' := score g + points (food g) in
                  let food_count' := food_count g + 1 in
                  let current_fps' :=
                    if (food_count' mod food_per_level =? 0)
                       && (current_fps g <? max_fps)
                    then Z.min (current_fps g + fps_increment) max_fps
                    else current_fps g in
                  let g := mkGame s (food g) score' (high_score g)
                             (game_over g) (paused g) (game_started g)
                             food_count' current_fps' (high_score_file g) in
                  let g :=
                    if high_score g <? score g then
                      save_high_score
                        (mkGame (snake g) (food g) (score g) (score g)
                           (game_over g) (paused g) (game_started g)
                           (food_count g) (current_fps g) (high_score_file g))
                        disk_ok
                    else g in
                  match Food_init (body (snake g)) d fuel with
                  | Returned f =>
                      Returned
                        (mkGame (snake g) f (score g) (high_score g)
                           (game_over g) (paused g) (game_started g)
                           (food_count g) (current_fps g) (high_score_file g))
                  | Raises => Raises
                  | Spins => Spins
                  end
              end
            else Returned g
        end
    end.


End Grid.

End Legacy.

(** ** Concrete states used as scenarios *)

Module Scenario.
Import Config.

(** Running right along the top row of the board, a turn upwards is
    pending. *)
Definition turning_into_wall : Snake.t :=
  Snake.mk 5 4 30 15 [(7, 4); (6, 4); (5, 4)] RIGHT UP false.

Definition turning_into_wall_after : Snake.t :=
  Snake.mk 5 4 30 15 [(7, 4); (6, 4); (5, 4)] UP UP false.

Definition with_score (n : Z) : Game.t :=
  Game.mk GameState.PLAYING n 0 INITIAL_FPS
    (Snake.init 5 4 30 15) (Food.init 5 4 30 15).

(** A generator whose every attempt lands on the cell (5, 5). *)
Definition stuck_rng (roll : bool) : Random.Rng :=
  Random.mkRng roll (fun _ => (0, 1)).

(** A generator whose first attempt lands on the cell (5, 4). *)
Definition corner_rng (roll : bool) : Random.Rng :=
  Random.mkRng roll (fun _ => (0, 0)).

(** A cookie on its last tick. *)
Definition dying_cookie : Food.t :=
  Food.mk 5 4 30 15 (Some (10, 10)) "cookie" COOKIE_FOOD_VALUE 1 false.

(** The same cookie after [Food.update] has run once more. *)
Definition expired_cookie : Food.t :=
  Food.mk 5 4 30 15 None "cookie" COOKIE_FOOD_VALUE 0 true.

(** The cookie spawned by the re-spawn that follows the expiry, at 4
    frames per second, when the roll gives a cookie again. *)
Definition respawned_cookie : Food.t :=
  Food.mk 5 4 30 15 (Some (5, 4)) "cookie" COOKIE_FOOD_VALUE 16 true.

Definition playing_with (f : Food.t) : Game.t :=
  Game.mk GameState.PLAYING 0 0 INITIAL_FPS (Snake.init 5 4 30 15) f.

(** The cookie that a fresh food object spawns at 10 frames per second. *)
Definition cookie_at_10 : Food.t :=
  Food.mk 5 4 30 15 (Some (5, 4)) "cookie" COOKIE_FOOD_VALUE 40 false.

(** The last tick of a game: the cookie is about to expire and the snake
    is about to run into the right wall. *)
Definition wall_runner : Snake.t :=
  Snake.mk 5 4 30 15
    [(34, 11); (33, 11); (32, 11); (31, 11); (30, 11); (29, 11); (28, 11)]
    RIGHT RIGHT false.

Definition last_tick : Game.t :=
  Game.mk GameState.PLAYING 50 20 5 wall_runner dying_cookie.

(** A game in progress, with a normal food on the board. *)
Definition mid_game : Game.t :=
  Game.mk GameState.PLAYING 10 20 INITIAL_FPS
    (Snake.mk 5 4 30 15 [(24, 9); (24, 10); (24, 11); (23, 11)] UP UP false)
    (Food.mk 5 4 30 15 (Some (6, 5)) "normal" NORMAL_FOOD_VALUE 0 false).

(** [last_tick] one step later: the expired cookie was replaced by another
    cookie, and the snake has hit the wall. *)
Definition crashed : Game.t :=
  Game.mk GameState.GAME_OVER 50 50 5 wall_runner
    (Food.mk 5 4 30 15 (Some (5, 4)) "cookie" COOKIE_FOOD_VALUE 20 true).

(** The session as [SnakeGame.__init__] leaves it. *)
Definition fresh_menu : Game.t :=
  Game.mk GameState.MENU 0 0 INITIAL_FPS (Snake.init 5 4 30 15)
    (Food.mk 5 4 30 15 (Some (5, 4)) "normal" NORMAL_FOOD_VALUE 0 false).

(** The initial snake after a request to turn up and one move. *)
Definition after_turn_and_move : Snake.t :=
  Snake.mk 5 4 30 15 [(20, 10); (20, 11); (19, 11)] UP UP false.

(** A snake that came from below and turned right: the cell at index 1 is
    the corner, the cells below it run in one column. *)
Definition turning : Snake.t :=
  Snake.mk 5 4 30 15 [(21, 9); (20, 9); (20, 10); (20, 11)] RIGHT RIGHT false.

(** The cookie that the expired food object spawns at 4 frames per second
    once it has been reset. *)
Definition respawned_live : Food.t :=
  Food.mk 5 4 30 15 (Some (5, 4)) "cookie" COOKIE_FOOD_VALUE 16 false.

(** The initial snake with a growth mark, one move later. *)
Definition fed_and_moved : Snake.t :=
  Snake.mk 5 4 30 15 [(21, 11); (20, 11); (19, 11); (18, 11)]
    RIGHT RIGHT false.

(** A game of [snake_game.py] on a 20 x 15 grid: the snake is about to
    eat its third food. *)
Definition legacy_game : Legacy.Game :=
  Legacy.mkGame
    (Legacy.mkSnake [(10, 7); (9, 7); (8, 7); (7, 7)] Legacy.RIGHT Legacy.RIGHT)
    (Legacy.mkFood (11, 7) "cookie" 20)
    30 30 false false true 2 3 (Some 30).




End Scenario.

(** ** The speed rule in the words of the specification *)

Definition spec_tick_rate (initial interval increment max score : Z) : Z :=
  Z.min (initial + (score / interval) * increment) max.

(** ** Vocabulary of the statements *)

(** The playable rectangle of a snake, as a proposition on coordinates. *)
Definition in_bounds (s : Snake.t) (p : Pos) : Prop :=
  Snake.playable_start_x s <= fst p
                           < Snake.playable_start_x s + Snake.playable_width s
  /\ Snake.playable_start_y s <= snd p
                              < Snake.playable_start_y s + Snake.playable_height s.

(** The playable rectangle of a food object, as a proposition. *)
Definition food_in_bounds (f : Food.t) (p : Pos) : Prop :=
  Food.playable_start_x f <= fst p
                          < Food.playable_start_x f + Food.playable_width f
  /\ Food.playable_start_y f <= snd p
                             < Food.playable_start_y f + Food.playable_height f.

(** The cell that the two [randint] calls of one attempt produce from the
    entropy [r] on a board of positive width and height. *)
Definition drawn (f : Food.t) (r : Z * Z) : Pos :=
  (Food.playable_start_x f + fst r mod Food.playable_width f,
   Food.playable_start_y f + snd r mod Food.playable_height f).

(** One of the four unit steps of [config.py]. *)
Definition is_unit (d : Pos) : Prop :=
  d = Config.UP \/ d = Config.DOWN \/ d = Config.LEFT \/ d = Config.RIGHT.

(** Every body cell is one unit step away from the cell before it. *)
Fixpoint connected (l : list Pos) : Prop :=
  match l with
  | a :: ((b :: _) as t) =>
      is_unit (fst a - fst b, snd a - snd b) /\ connected t
  | _ => True
  end.

(** The head sits one step ahead of the neck in the applied direction. *)
Definition heading (s : Snake.t) : Prop :=
  match Snake.body s with
  | h :: n :: _ => (fst h - fst n, snd h - snd n) = Snake.direction s
  | _ => True
  end.

(** The shape that play keeps: a connected body led by the head, unit
    directions, and no pending reversal on a snake with a neck. *)
Definition well_formed (s : Snake.t) : Prop :=
  connected (Snake.body s)
  /\ heading s
  /\ is_unit (Snake.direction s)
  /\ is_unit (Snake.next_direction s)
  /\ ((1 < List.length (Snake.body s))%nat ->
      Snake.next_direction s <> Snake.opposite (Snake.direction s)).

(** The snake states of a session on a given board: the initial layout,
    followed by direction requests, growth marks and successful moves. *)
Inductive reachable (psx psy pw ph : Z) : Snake.t -> Prop :=
| reach_init : reachable psx psy pw ph (Snake.init psx psy pw ph)
| reach_turn s d :
    reachable psx psy pw ph s -> is_unit d ->
    reachable psx psy pw ph (Snake.update_direction s d)
| reach_grow s :
    reachable psx psy pw ph s -> reachable psx psy pw ph (Snake.grow s)
| reach_move s s' :
    reachable psx psy pw ph s -> Snake.move s = Some (true, s') ->
    reachable psx psy pw ph s'.

(** The reverse of a direction of [snake_game.py]. *)
Definition reverse (d : Legacy.Direction) : Legacy.Direction :=
  match d with
  | Legacy.UP => Legacy.DOWN
  | Legacy.DOWN => Legacy.UP
  | Legacy.LEFT => Legacy.RIGHT
  | Legacy.RIGHT => Legacy.LEFT
  end.

(** The cells on which the snake of [snake_game.py] survives: columns 1 to
    [W - 2], rows 1 to [H - 1]. *)
Definition survivable (W H : Z) (p : Pos) : Prop :=
  1 <= fst p <= W - 2 /\ 1 <= snd p <= H - 1.

(** The cell that one pass of the loop of [Legacy.generate_position]
    draws from the entropy [r]. *)
Definition legacy_drawn (W H : Z) (r : Z * Z) : Pos :=
  (1 + fst r mod (W - 2), 1 + snd r mod (H - 1)).

(** The cell that one pass of the loop of [Utils.get_random_position]
    draws from the entropy [r]. *)
Definition grid_drawn (r : Z * Z) : Pos :=
  (1 + fst r mod (Config.GRID_WIDTH - 2), 1 + snd r mod (Config.GRID_HEIGHT - 2)).

(** What happens to a session: a key press, or one pass of [_update].
    [SnakeGame.run] handles the pending key presses and then calls
    [_update] once per frame, so every trace of the main loop is a list of
    such events. *)
Inductive event : Type :=
| Press (key : Game.Key) (rng : Random.Rng)
| Tick (respawn eaten : Random.Rng).

Definition step (g : Game.t) (e : event) : Game.outcome :=
  match e with
  | Press key rng => Game._handle_keydown g key rng
  | Tick respawn eaten => Game.of_option (Game._update g respawn eaten)
  end.

Fixpoint run (g : Game.t) (es : list event) : Game.outcome :=
  match es with
  | [] => Game.Continue g
  | e :: es' =>
      match step g e with
      | Game.Continue g' => run g' es'
      | o => o
      end
  end.

(** The board of [SnakeGame.__init__], on both objects. *)
Definition on_game_board (g : Game.t) : Prop :=
  Snake.playable_start_x (Game.snake g) = 5
  /\ Snake.playable_start_y (Game.snake g) = 4
  /\ Snake.playable_width (Game.snake g) = 30
  /\ Snake.playable_height (Game.snake g) = 15
  /\ Food.playable_start_x (Game.food g) = 5
  /\ Food.playable_start_y (Game.food g) = 4
  /\ Food.playable_width (Game.food g) = 30
  /\ Food.playable_height (Game.food g) = 15.

(** What every session of the game satisfies. *)
Definition session_ok (g : Game.t) : Prop :=
  (Game.state g = GameState.MENU \/ Game.state g = GameState.PLAYING
   \/ Game.state g = GameState.PAUSED \/ Game.state g = GameState.GAME_OVER)
  /\ on_game_board g
  /\ NoDup (Snake.body (Game.snake g))
  /\ Forall (in_bounds (Game.snake g)) (Snake.body (Game.snake g))
  /\ connected (Snake.body (Game.snake g))
  /\ (3 <= List.length (Snake.body (Game.snake g)))%nat
  /\ (Game.state g <> GameState.GAME_OVER -> well_formed (Game.snake g))
  /\ 0 <= Game.score g
  /\ Game.score g mod 10 = 0
  /\ Game.current_fps g
     = spec_tick_rate Config.INITIAL_FPS Config.SPEED_INCREASE_INTERVAL
         Config.SPEED_INCREASE_AMOUNT Config.MAX_FPS (Game.score g)
  /\ 0 <= Game.high_score g
  /\ (Game.state g = GameState.GAME_OVER -> Game.score g <= Game.high_score g)
  /\ (Food.value (Game.food g) = 10 \/ Food.value (Game.food g) = 20).

(** Two sessions laid out on the same board. *)
Definition same_board (g1 g2 : Game.t) : Prop :=
  Snake.playable_start_x (Game.snake g1) = Snake.playable_start_x (Game.snake g2)
  /\ Snake.playable_start_y (Game.snake g1) = Snake.playable_start_y (Game.snake g2)
  /\ Snake.playable_width (Game.snake g1) = Snake.playable_width (Game.snake g2)
  /\ Snake.playable_height (Game.snake g1) = Snake.playable_height (Game.snake g2)
  /\ Food.playable_start_x (Game.food g1) = Food.playable_start_x (Game.food g2)
  /\ Food.playable_start_y (Game.food g1) = Food.playable_start_y (Game.food g2)
  /\ Food.playable_width (Game.food g1) = Food.playable_width (Game.food g2)
  /\ Food.playable_height (Game.food g1) = Food.playable_height (Game.food g2).

(** * Properties *)

Lemma pos_eqb_eq (p q : Pos) : pos_eqb p q = true <-> p = q.
Proof.
  destruct p as [a b], q as [c d]; unfold pos_eqb; simpl.
  rewrite andb_true_iff, !Z.eqb_eq. split.
  - intros [-> ->]; reflexivity.
  - intros H; inversion H; auto.
Qed.

Lemma pos_in_In (p : Pos) (l : list Pos) : pos_in p l = true <-> In p l.
Proof.
  unfold pos_in. rewrite existsb_exists. split.
  - intros (q & Hq & He). apply pos_eqb_eq in He. subst. assumption.
  - intros H. exists p. split; [assumption | now apply pos_eqb_eq].
Qed.

Section SnakeProperties.
Import Snake.

Lemma is_valid_position_in_bounds s p :
  _is_valid_position s p = true <-> in_bounds s p.
Proof.
  destruct p as [x y]; unfold _is_valid_position, in_bounds; simpl.
  rewrite !andb_true_iff, !Z.leb_le, !Z.ltb_lt. tauto.
Qed.

End SnakeProperties.

Section SnakeMove.
Import Snake.

Lemma move_empty s : body s = [] -> move s = None.
Proof. intros H. unfold move. simpl. rewrite H. reflexivity. Qed.

Lemma move_returns_cons s r :
  move s = Some r -> exists head rest, body s = head :: rest.
Proof.
  intros Hm. destruct (body s) as [|head rest] eqn:Hb.
  - rewrite (move_empty s Hb) in Hm. discriminate.
  - now exists head, rest.
Qed.

Lemma length_removelast_S (A : Type) (l : list A) :
  l <> [] -> S (List.length (removelast l)) = List.length l.
Proof.
  intros Hl. destruct l as [|a l]; [congruence|].
  rewrite (app_removelast_last a Hl) at 2.
  rewrite length_app. simpl. lia.
Qed.

Lemma removelast_cons_neq (A : Type) (x : A) (l : list A) :
  l <> [] -> x :: removelast l <> x :: l.
Proof.
  intros Hl He. apply (f_equal (@List.length A)) in He. simpl in He.
  pose proof (length_removelast_S A l Hl). lia.
Qed.

(** [move] on a non-empty body, as one equation. *)
Lemma move_cons (s : Snake.t) (head : Pos) (rest : list Pos) :
  body s = head :: rest ->
  let s1 := set_direction s (next_direction s) in
  let new_head :=
    (fst head + fst (next_direction s), snd head + snd (next_direction s)) in
  move s =
    if negb (_is_valid_position s new_head) || pos_in new_head (body s)
    then Some (false, s1)
    else Some (true,
               if grow_pending s
               then set_grow_pending (set_body s1 (new_head :: body s)) false
               else set_body s1 (new_head :: removelast (body s))).
Proof.
  destruct s as [psx psy pw ph b d nd gp], head as [hx hy].
  cbn [body next_direction grow_pending fst snd]. intros ->.
  unfold move, set_direction, set_body, set_grow_pending, _is_valid_position.
  cbn [body next_direction grow_pending direction playable_start_x
       playable_start_y playable_width playable_height fst snd].
  destruct (_ && _ && _); cbn [negb orb]; [|reflexivity].
  destruct (pos_in _ _); [reflexivity|].
  destruct gp; reflexivity.
Qed.

(** C1. [move] fails exactly when the cell in front of the head (in the
    freshly applied [next_direction]) is outside the playable rectangle or
    is occupied by any body cell, the tail included; on success the new
    body is the new head followed by the old body, whose last cell is
    dropped exactly when [grow_pending] was false. *)
Theorem move_spec (s : Snake.t) (head : Pos) (rest : list Pos) :
  body s = head :: rest ->
  let new_head :=
    (fst head + fst (next_direction s), snd head + snd (next_direction s)) in
  exists (moved : bool) (s' : Snake.t),
    move s = Some (moved, s')
    /\ (moved = false <-> ~ in_bounds s new_head \/ In new_head (body s))
    /\ (moved = true ->
        (grow_pending s = true -> body s' = new_head :: body s)
        /\ (grow_pending s = false ->
            body s' = new_head :: removelast (body s))
        /\ (body s' = new_head :: removelast (body s)
            <-> grow_pending s = false)).
Proof.
  intros Hb new_head.
  rewrite (move_cons s head rest Hb). fold new_head.
  assert (Hne : body s <> []) by (rewrite Hb; discriminate).
  destruct (_is_valid_position s new_head) eqn:Ev; cbn [negb orb].
  - apply is_valid_position_in_bounds in Ev.
    destruct (pos_in new_head (body s)) eqn:Ei.
    + exists false; eexists. split; [reflexivity|]. split; [|discriminate].
      split; [|reflexivity]. intros _. right. now apply pos_in_In.
    + exists true; eexists. split; [reflexivity|]. split.
      * split; [discriminate|]. intros [Hout | Hin]; [contradiction|].
        apply pos_in_In in Hin. congruence.
      * intros _. destruct (grow_pending s); cbn [body set_body set_grow_pending].
        -- split; [reflexivity|]. split; [discriminate|].
           split; [|discriminate]. intros He. exfalso.
           symmetry in He. revert He. now apply removelast_cons_neq.
        -- split; [discriminate|]. split; [reflexivity|].
           split; reflexivity.
  - exists false; eexists. split; [reflexivity|]. split; [|discriminate].
    split; [|reflexivity]. intros _. left. intros Hin.
    apply is_valid_position_in_bounds in Hin. congruence.
Qed.

Lemma move_spec_witness :
  exists (moved : bool) (s' : Snake.t),
    move (Snake.init 5 4 30 15) = Some (moved, s')
    /\ (moved = false <->
        ~ in_bounds (Snake.init 5 4 30 15) (21, 11)
        \/ In (21, 11) (body (Snake.init 5 4 30 15)))
    /\ (moved = true ->
        (grow_pending (Snake.init 5 4 30 15) = true ->
         body s' = (21, 11) :: body (Snake.init 5 4 30 15))
        /\ (grow_pending (Snake.init 5 4 30 15) = false ->
            body s' = (21, 11) :: removelast (body (Snake.init 5 4 30 15)))
        /\ (body s' = (21, 11) :: removelast (body (Snake.init 5 4 30 15))
            <-> grow_pending (Snake.init 5 4 30 15) = false)).
Proof.
  exact (move_spec (Snake.init 5 4 30 15) (20, 11) [(19, 11); (18, 11)]
           eq_refl).
Defined.

(** The scenarios of the specification: a straight step on a 5 x 5 board
    drops the tail, and a head that turns onto the cell still held by the
    tail collides. *)
Example move_straight :
  move (mk 0 0 5 5 [(3, 2); (2, 2); (1, 2)] Config.RIGHT Config.RIGHT false)
  = Some (true,
          mk 0 0 5 5 [(4, 2); (3, 2); (2, 2)] Config.RIGHT Config.RIGHT false).
Proof. reflexivity. Qed.

Example move_onto_tail :
  move (mk 0 0 2 2 [(0, 0); (1, 0); (1, 1); (0, 1)]
           Config.LEFT Config.DOWN false)
  = Some (false,
          mk 0 0 2 2 [(0, 0); (1, 0); (1, 1); (0, 1)]
             Config.DOWN Config.DOWN false).
Proof. reflexivity. Qed.

(** [move] never empties the body, so [body[0]] cannot raise on a snake
    built by [init] or [reset] and moved any number of times. *)
Lemma move_keeps_body (s s' : Snake.t) (moved : bool) :
  move s = Some (moved, s') -> body s' <> [].
Proof.
  intros Hm. destruct (move_returns_cons s _ Hm) as (head & rest & Hb).
  rewrite (move_cons s head rest Hb) in Hm.
  destruct (negb _ || _).
  - injection Hm as _ <-. cbn [body set_direction]. congruence.
  - injection Hm as _ <-. destruct (grow_pending s); discriminate.
Qed.

(** C2, as the code has it.  A failed [move] leaves [body],
    [next_direction] and [grow_pending] as they were, but [direction] has
    already taken the value of [next_direction]: the state is unchanged
    exactly when no turn was pending. *)
Theorem move_failed_state (s s' : Snake.t) :
  move s = Some (false, s') ->
  body s' = body s
  /\ next_direction s' = next_direction s
  /\ grow_pending s' = grow_pending s
  /\ direction s' = next_direction s
  /\ (s' = s <-> direction s = next_direction s).
Proof.
  intros Hm.
  assert (Hs : s' = set_direction s (next_direction s)).
  { destruct (move_returns_cons s _ Hm) as (head & rest & Hb).
    rewrite (move_cons s head rest Hb) in Hm.
    destruct (negb _ || _); congruence. }
  subst s'. clear Hm. destruct s as [psx psy pw ph b d nd gp].
  unfold set_direction; cbn.
  repeat split; intros; congruence.
Qed.

Lemma move_failed_state_witness :
  body Scenario.turning_into_wall_after = body Scenario.turning_into_wall
  /\ next_direction Scenario.turning_into_wall_after
     = next_direction Scenario.turning_into_wall
  /\ grow_pending Scenario.turning_into_wall_after
     = grow_pending Scenario.turning_into_wall
  /\ direction Scenario.turning_into_wall_after
     = next_direction Scenario.turning_into_wall
  /\ (Scenario.turning_into_wall_after = Scenario.turning_into_wall
      <-> direction Scenario.turning_into_wall
          = next_direction Scenario.turning_into_wall).
Proof.
  exact (move_failed_state Scenario.turning_into_wall
           Scenario.turning_into_wall_after eq_refl).
Defined.

(** C2 as stated fails: a snake running right along the top row with a
    pending turn upwards hits the wall, and the failed [move] has changed
    [direction] from right to up. *)
Lemma move_failed_not_atomic :
  exists s',
    move Scenario.turning_into_wall = Some (false, s')
    /\ direction s' <> direction Scenario.turning_into_wall.
Proof.
  exists Scenario.turning_into_wall_after.
  split; [reflexivity | discriminate].
Qed.

Lemma iter_grow (n : nat) (s : Snake.t) :
  Nat.iter (S n) grow s = grow s.
Proof.
  induction n as [|n IH]; [reflexivity|].
  change (Nat.iter (S (S n)) grow s) with (grow (Nat.iter (S n) grow s)).
  rewrite IH. reflexivity.
Qed.

(** C5. From a state whose next [move] succeeds, one [grow] or any
    positive number of [grow]s followed by [move] give the same state; the
    body is one cell longer, and body, [direction] and [next_direction]
    are those of the non-growing [move] with the old tail cell kept at the
    end. *)
Theorem grow_idempotent_per_tick (s s_adv : Snake.t) (n : nat) :
  move s = Some (true, s_adv) ->
  exists s_plain s_grown,
    move (set_grow_pending s false) = Some (true, s_plain)
    /\ move (grow s) = Some (true, s_grown)
    /\ move (Nat.iter (S n) grow s) = Some (true, s_grown)
    /\ List.length (body s_grown) = S (List.length (body s))
    /\ List.length (body s_plain) = List.length (body s)
    /\ body s_grown = body s_plain ++ [last (body s) (0, 0)]
    /\ direction s_grown = direction s_plain
    /\ next_direction s_grown = next_direction s_plain
    /\ grow_pending s_grown = false.
Proof.
  intros Hm. rewrite iter_grow.
  destruct (move_returns_cons s _ Hm) as (head & rest & Hb).
  assert (Hne : body s <> []) by (rewrite Hb; discriminate).
  rewrite (move_cons s head rest Hb) in Hm.
  rewrite (move_cons (set_grow_pending s false) head rest Hb).
  rewrite (move_cons (grow s) head rest Hb).
  cbn [grow set_grow_pending body next_direction grow_pending].
  change (_is_valid_position
            (mk (playable_start_x s) (playable_start_y s) (playable_width s)
                (playable_height s) (body s) (direction s)
                (next_direction s) ?b) ?p)
    with (_is_valid_position s p).
  destruct (negb _ || _); [discriminate|].
  do 2 eexists. split; [reflexivity|]. split; [reflexivity|].
  split; [reflexivity|].
  cbn [body direction next_direction grow_pending set_body set_direction
       set_grow_pending List.length].
  pose proof (length_removelast_S _ (body s) Hne) as Hl.
  repeat split; try lia.
  rewrite <- app_comm_cons. f_equal.
  now apply app_removelast_last.
Qed.

Lemma grow_idempotent_per_tick_witness :
  exists s_plain s_grown,
    move (set_grow_pending (Snake.init 5 4 30 15) false) = Some (true, s_plain)
    /\ move (grow (Snake.init 5 4 30 15)) = Some (true, s_grown)
    /\ move (Nat.iter 2 grow (Snake.init 5 4 30 15)) = Some (true, s_grown)
    /\ List.length (body s_grown) = 4%nat
    /\ List.length (body s_plain) = 3%nat
    /\ body s_grown = body s_plain ++ [(18, 11)]
    /\ direction s_grown = direction s_plain
    /\ next_direction s_grown = next_direction s_plain
    /\ grow_pending s_grown = false.
Proof.
  exact (grow_idempotent_per_tick (Snake.init 5 4 30 15) _ 1 eq_refl).
Defined.

(** C7. With more than one body cell, asking for the exact opposite of
    the applied direction changes nothing; any other request, or any
    request at all on a one-cell snake, is recorded in [next_direction]
    and touches no other field. *)
Theorem update_direction_spec (s : Snake.t) (d : Pos) :
  ((1 < List.length (body s))%nat ->
   d = (- fst (direction s), - snd (direction s)) ->
   update_direction s d = s)
  /\ ((1 < List.length (body s))%nat
      /\ d <> (- fst (direction s), - snd (direction s))
      \/ List.length (body s) = 1%nat ->
      next_direction (update_direction s d) = d
      /\ body (update_direction s d) = body s
      /\ direction (update_direction s d) = direction s
      /\ grow_pending (update_direction s d) = grow_pending s).
Proof.
  unfold update_direction. split.
  - intros Hlen ->.
    apply Nat.ltb_lt in Hlen. rewrite Hlen.
    replace (pos_eqb _ _) with true; [reflexivity|].
    symmetry. now apply pos_eqb_eq.
  - intros [[Hlen Hd] | Hone].
    + replace (pos_eqb d (opposite (direction s))) with false.
      * rewrite andb_false_r. cbn. auto.
      * symmetry. apply not_true_iff_false. intros He.
        apply pos_eqb_eq in He. contradiction.
    + rewrite Hone. cbn. auto.
Qed.

Lemma update_direction_spec_witness :
  update_direction (Snake.init 5 4 30 15) Config.LEFT = Snake.init 5 4 30 15
  /\ next_direction (update_direction (Snake.init 5 4 30 15) Config.UP)
     = Config.UP
  /\ next_direction
       (update_direction (mk 5 4 30 15 [(20, 11)] Config.RIGHT Config.RIGHT false)
          Config.LEFT)
     = Config.LEFT.
Proof.
  split; [|split].
  - apply (update_direction_spec (Snake.init 5 4 30 15) Config.LEFT);
      [cbn; lia | reflexivity].
  - apply (update_direction_spec (Snake.init 5 4 30 15) Config.UP).
    left. split; [cbn; lia | discriminate].
  - apply (update_direction_spec
             (mk 5 4 30 15 [(20, 11)] Config.RIGHT Config.RIGHT false)
             Config.LEFT).
    right. reflexivity.
Defined.

End SnakeMove.

(** ** Speed progression *)

Section SpeedController.
Variables initial interval increment max : Z.
Hypothesis interval_pos : 0 < interval.
Hypothesis increment_nonneg : 0 <= increment.

Lemma spec_tick_rate_mono (a b : Z) :
  a <= b ->
  spec_tick_rate initial interval increment max a
  <= spec_tick_rate initial interval increment max b.
Proof.
  intros Hab. unfold spec_tick_rate.
  apply Z.min_le_compat_r, Z.add_le_mono_l, Z.mul_le_mono_nonneg_r;
    [assumption|].
  now apply Z.div_le_mono.
Qed.

Lemma spec_tick_rate_le_max (a : Z) :
  spec_tick_rate initial interval increment max a <= max.
Proof. apply Z.le_min_r. Qed.

End SpeedController.

Section GameSpeed.
Import Config Game.

Lemma update_speed_fps (g : Game.t) :
  current_fps (_update_speed g)
  = spec_tick_rate INITIAL_FPS SPEED_INCREASE_INTERVAL SPEED_INCREASE_AMOUNT
      MAX_FPS (score g).
Proof. reflexivity. Qed.

(** C3. [_update_speed] sets [current_fps] to
    [min (initial + floor (score / interval) * increment, max)], a value
    that depends on the score alone, does not decrease when the score
    grows, and never exceeds [MAX_FPS]; with the configured constants
    (4, 30, 1, 15) a score of 29 gives 4, 30 gives 5 and 450 gives 15. *)
Theorem update_speed_spec :
  (forall g,
      current_fps (_update_speed g)
      = spec_tick_rate INITIAL_FPS SPEED_INCREASE_INTERVAL
          SPEED_INCREASE_AMOUNT MAX_FPS (score g)
      /\ _update_speed g = set_current_fps g (current_fps (_update_speed g)))
  /\ (forall g g',
         score g = score g' ->
         current_fps (_update_speed g) = current_fps (_update_speed g'))
  /\ (forall g, _update_speed (_update_speed g) = _update_speed g)
  /\ (forall g g',
         score g <= score g' ->
         current_fps (_update_speed g) <= current_fps (_update_speed g'))
  /\ (forall g, current_fps (_update_speed g) <= MAX_FPS)
  /\ (INITIAL_FPS = 4 /\ SPEED_INCREASE_INTERVAL = 30
      /\ SPEED_INCREASE_AMOUNT = 1 /\ MAX_FPS = 15)
  /\ (forall g, score g = 29 -> current_fps (_update_speed g) = 4)
  /\ (forall g, score g = 30 -> current_fps (_update_speed g) = 5)
  /\ (forall g, score g = 450 -> current_fps (_update_speed g) = 15).
Proof.
  split; [|split; [|split; [|split; [|split; [|split]]]]].
  - intros g. split; reflexivity.
  - intros g g' H. rewrite !update_speed_fps, H. reflexivity.
  - intros g. reflexivity.
  - intros g g' H. rewrite !update_speed_fps.
    apply spec_tick_rate_mono; [reflexivity | discriminate | assumption].
  - intros g. rewrite update_speed_fps. apply spec_tick_rate_le_max.
  - repeat split.
  - repeat split; intros g H; rewrite update_speed_fps, H; reflexivity.
Qed.

Lemma update_speed_spec_witness :
  current_fps (_update_speed (Scenario.with_score 29)) = 4
  /\ current_fps (_update_speed (Scenario.with_score 30)) = 5
  /\ current_fps (_update_speed (Scenario.with_score 450)) = 15
  /\ current_fps (_update_speed (Scenario.with_score 29))
     <= current_fps (_update_speed (Scenario.with_score 30))
  /\ current_fps (_update_speed (Scenario.with_score 29))
     = current_fps (_update_speed (Scenario.with_score 29)).
Proof.
  destruct update_speed_spec as (_ & Hpure & _ & Hmono & _ & _ & H29 & H30 & H450).
  split; [apply H29; reflexivity|].
  split; [apply H30; reflexivity|].
  split; [apply H450; reflexivity|].
  split; [apply Hmono; cbn; lia | apply Hpure; reflexivity].
Defined.

End GameSpeed.

(** ** Food placement *)

Section FoodSpawn.
Import Food Random.

Lemma food_is_valid_in_bounds f p :
  Food._is_valid_position f p = true <-> food_in_bounds f p.
Proof.
  destruct p as [x y]; unfold Food._is_valid_position, food_in_bounds; simpl.
  rewrite !andb_true_iff, !Z.leb_le, !Z.ltb_lt. tauto.
Qed.

Section Board.
Variable f : Food.t.
Hypothesis width_pos : 0 < playable_width f.
Hypothesis height_pos : 0 < playable_height f.

Lemma randint_width a r :
  randint a (a + playable_width f - 1) r = Some (a + r mod playable_width f).
Proof.
  unfold randint.
  destruct (Z.ltb_spec (a + playable_width f - 1) a) as [H|H]; [lia|].
  do 3 f_equal. lia.
Qed.

Lemma randint_height a r :
  randint a (a + playable_height f - 1) r
  = Some (a + r mod playable_height f).
Proof.
  unfold randint.
  destruct (Z.ltb_spec (a + playable_height f - 1) a) as [H|H]; [lia|].
  do 3 f_equal. lia.
Qed.

Lemma get_random_position_drawn ex r :
  _get_random_position f ex r = Some (drawn f r).
Proof.
  unfold _get_random_position.
  rewrite randint_width, randint_height. reflexivity.
Qed.

Lemma drawn_in_bounds r : food_in_bounds f (drawn f r).
Proof.
  unfold food_in_bounds, drawn; simpl.
  pose proof (Z.mod_pos_bound (fst r) _ width_pos).
  pose proof (Z.mod_pos_bound (snd r) _ height_pos).
  lia.
Qed.

(** The search returns the first drawn cell that is free, or the
    fallback when all the remaining attempts land on excluded cells. *)
Lemma generate_loop_spec ex cell remaining :
  forall attempts,
    (exists i,
        (attempts <= i < attempts + remaining)%nat
        /\ ~ In (drawn f (cell i)) ex
        /\ (forall j, (attempts <= j < i)%nat -> In (drawn f (cell j)) ex)
        /\ generate_loop f ex cell attempts remaining
           = Some (drawn f (cell i)))
    \/ ((forall i, (attempts <= i < attempts + remaining)%nat ->
                   In (drawn f (cell i)) ex)
        /\ generate_loop f ex cell attempts remaining = Some (5, 5)).
Proof.
  induction remaining as [|remaining IH]; intros attempts.
  - right. split; [intros i Hi; lia | reflexivity].
  - cbn [generate_loop]. rewrite get_random_position_drawn. cbn [bind].
    replace (Food._is_valid_position f (drawn f (cell attempts))) with true
      by (symmetry; apply food_is_valid_in_bounds, drawn_in_bounds).
    cbn [andb].
    destruct (pos_in (drawn f (cell attempts)) ex) eqn:Ein; cbn [negb].
    + apply pos_in_In in Ein.
      destruct (IH (S attempts)) as [(i & Hi & Hfree & Hbefore & Hres) | [Hall Hres]].
      * left. exists i. repeat split; try lia; try assumption.
        intros j Hj. destruct (Nat.eq_dec j attempts) as [->|Hne];
          [assumption | apply Hbefore; lia].
      * right. split; [|assumption].
        intros i Hi. destruct (Nat.eq_dec i attempts) as [->|Hne];
          [assumption | apply Hall; lia].
    + left. exists attempts.
      split; [lia|]. split; [|split; [intros j Hj; lia | reflexivity]].
      intros Hin. apply pos_in_In in Hin. congruence.
Qed.

End Board.

(** [generate] touches neither the board nor, on the cookie branch, the
    expiry flag. *)
Lemma generate_fields f ex fps rng p f' :
  generate f ex fps rng = Some (p, f') ->
  position f' = Some p
  /\ playable_start_x f' = playable_start_x f
  /\ playable_start_y f' = playable_start_y f
  /\ playable_width f' = playable_width f
  /\ playable_height f' = playable_height f
  /\ (cookie_roll rng = true ->
      food_type f' = "cookie"%string
      /\ value f' = Config.COOKIE_FOOD_VALUE
      /\ lifetime f' = Config.COOKIE_LIFETIME * fps
      /\ is_expired f' = is_expired f)
  /\ (cookie_roll rng = false ->
      food_type f' = "normal"%string
      /\ value f' = Config.NORMAL_FOOD_VALUE
      /\ lifetime f' = 0
      /\ is_expired f' = false).
Proof.
  unfold generate. intros H.
  destruct (generate_loop _ _ _ _ _) as [q|]; [|discriminate].
  cbn [bind] in H. injection H as <- <-.
  destruct (cookie_roll rng); cbn; repeat split; intros; congruence.
Qed.

Lemma generate_loop_board f1 f2 ex cell remaining :
  playable_start_x f1 = playable_start_x f2 ->
  playable_start_y f1 = playable_start_y f2 ->
  playable_width f1 = playable_width f2 ->
  playable_height f1 = playable_height f2 ->
  forall attempts,
    generate_loop f1 ex cell attempts remaining
    = generate_loop f2 ex cell attempts remaining.
Proof.
  intros Hx Hy Hw Hh.
  induction remaining as [|remaining IH]; intros attempts; [reflexivity|].
  cbn [generate_loop]. unfold _get_random_position, Food._is_valid_position.
  rewrite Hx, Hy, Hw, Hh.
  destruct (randint _ _ _) as [x|]; [|reflexivity]. cbn [bind].
  destruct (randint _ _ _) as [y|]; [|reflexivity]. cbn [bind].
  rewrite IH. reflexivity.
Qed.

(** The position that [generate] returns is the outcome of the search on
    the board of [f], whatever kind of food was rolled. *)
Lemma generate_search f ex fps rng :
  (exists p f',
      generate f ex fps rng = Some (p, f')
      /\ generate_loop f ex (cell rng) 0 max_attempts = Some p)
  \/ (generate f ex fps rng = None
      /\ generate_loop f ex (cell rng) 0 max_attempts = None).
Proof.
  unfold generate.
  match goal with
  | |- context [generate_loop ?m ex (cell rng) 0 max_attempts] =>
      rewrite (generate_loop_board m f)
        by (destruct (cookie_roll rng); reflexivity)
  end.
  destruct (generate_loop f ex (cell rng) 0 max_attempts) as [p|]; cbn [bind].
  - left. eauto.
  - right. auto.
Qed.

Lemma generate_total f ex fps rng :
  0 < playable_width f -> 0 < playable_height f ->
  exists p f', generate f ex fps rng = Some (p, f').
Proof.
  intros Hw Hh.
  destruct (generate_search f ex fps rng) as [(p & f' & Hg & _) | [_ Hnone]];
    [eauto|].
  destruct (generate_loop_spec f Hw Hh ex (cell rng) max_attempts 0%nat)
    as [(i & _ & _ & _ & Hres) | [_ Hres]]; congruence.
Qed.

(** C4, as the code has it.  On a board of positive size [generate]
    returns; when one of the [max_attempts] drawn cells is free the
    result is a free cell of the board; when all of them are excluded the
    result is the fallback (5, 5), excluded or not; and on a board that
    contains (5, 5), as the board of the game does, the result is always
    inside the board. *)
Theorem generate_position_spec f ex fps rng :
  0 < playable_width f -> 0 < playable_height f ->
  exists p f',
    generate f ex fps rng = Some (p, f')
    /\ position f' = Some p
    /\ ((exists i, (i < max_attempts)%nat /\ ~ In (drawn f (cell rng i)) ex) ->
        ~ In p ex /\ food_in_bounds f p)
    /\ ((forall i, (i < max_attempts)%nat -> In (drawn f (cell rng i)) ex) ->
        p = (5, 5))
    /\ (food_in_bounds f (5, 5) -> food_in_bounds f p).
Proof.
  intros Hw Hh.
  destruct (generate_search f ex fps rng) as [(p & f' & Hg & Hl) | [Hg _]].
  2:{ destruct (generate_total f ex fps rng Hw Hh) as (p & f' & Hg').
      congruence. }
  exists p, f'. split; [assumption|].
  split; [apply (generate_fields _ _ _ _ _ _ Hg)|].
  destruct (generate_loop_spec f Hw Hh ex (cell rng) max_attempts 0%nat)
    as [(i & Hi & Hfree & _ & Hres) | [Hall Hres]];
    rewrite Hres in Hl; injection Hl as <-.
  - split; [|split].
    + intros _. split; [assumption | now apply drawn_in_bounds].
    + intros Hall. exfalso. apply Hfree, Hall. lia.
    + intros _. now apply drawn_in_bounds.
  - split; [|split].
    + intros (i & Hi & Hfree). exfalso. apply Hfree, Hall. lia.
    + reflexivity.
    + auto.
Qed.

Lemma generate_position_spec_witness :
  exists p f',
    generate (Food.init 5 4 30 15) [(5, 4)] 4 (Scenario.stuck_rng false)
    = Some (p, f')
    /\ position f' = Some p
    /\ ~ In p [(5, 4)]
    /\ food_in_bounds (Food.init 5 4 30 15) p.
Proof.
  destruct (generate_position_spec (Food.init 5 4 30 15) [(5, 4)] 4
              (Scenario.stuck_rng false) eq_refl eq_refl)
    as (p & f' & Hg & Hp & Hfree & _ & _).
  exists p, f'. split; [assumption|]. split; [assumption|].
  apply Hfree. exists 0%nat. split; [unfold max_attempts; lia|].
  cbn. intros [H|[]]. discriminate.
Defined.

(** C4 as stated fails: the cell (6, 5) of the board is free, yet with
    (5, 5) excluded and every attempt landing on (5, 5) the search gives
    up and returns the excluded (5, 5). *)
Lemma generate_returns_excluded :
  (exists q, food_in_bounds (Food.init 5 4 30 15) q /\ ~ In q [(5, 5)])
  /\ exists f',
      generate (Food.init 5 4 30 15) [(5, 5)] 4 (Scenario.stuck_rng false)
      = Some ((5, 5), f')
      /\ In (5, 5) [(5, 5)].
Proof.
  split.
  - exists (6, 5). split.
    + unfold food_in_bounds; cbn; lia.
    + intros [H|[]]. discriminate.
  - eexists. split; [vm_compute; reflexivity | left; reflexivity].
Qed.

End FoodSpawn.

(** ** Food lifetime *)

Section FoodExpiry.
Import Food Random.

Lemma update_normal f : food_type f = "normal"%string -> update f = f.
Proof. intros H. unfold update. rewrite H. reflexivity. Qed.

Lemma update_spent f : lifetime f <= 0 -> update f = f.
Proof.
  intros H. unfold update.
  destruct (Z.ltb_spec 0 (lifetime f)); [lia|].
  now rewrite andb_false_r.
Qed.

Lemma update_cookie_live f :
  food_type f = "cookie"%string -> 1 < lifetime f ->
  update f = set_lifetime f (lifetime f - 1).
Proof.
  intros Hk Hl. unfold update. rewrite Hk. cbn [String.eqb Ascii.eqb Bool.eqb andb].
  destruct (Z.ltb_spec 0 (lifetime f)); [|lia].
  cbn [lifetime set_lifetime].
  destruct (Z.leb_spec (lifetime f - 1) 0); [lia | reflexivity].
Qed.

Lemma update_cookie_last f :
  food_type f = "cookie"%string -> lifetime f = 1 ->
  update f = set_position (set_is_expired (set_lifetime f 0) true) None.
Proof.
  intros Hk Hl. unfold update. rewrite Hk, Hl. reflexivity.
Qed.

(** A live cookie after [k] updates, [k] below its lifetime. *)
Lemma iter_update_cookie f :
  food_type f = "cookie"%string ->
  forall k : nat,
    Z.of_nat k < lifetime f ->
    Nat.iter k update f = set_lifetime f (lifetime f - Z.of_nat k).
Proof.
  intros Hk. induction k as [|k IH]; intros Hlt.
  - change (Nat.iter 0 update f) with f.
    destruct f; unfold set_lifetime; cbn. f_equal. lia.
  - rewrite Nat.iter_succ, IH by lia.
    rewrite update_cookie_live; cbn [food_type lifetime set_lifetime];
      [|assumption|lia].
    unfold set_lifetime; cbn. f_equal. lia.
Qed.

Lemma iter_update_cookie_expired f (n : nat) :
  food_type f = "cookie"%string ->
  lifetime f = Z.of_nat (S n) ->
  Nat.iter (S n) update f
  = set_position (set_is_expired (set_lifetime f 0) true) None.
Proof.
  intros Hk Hl. rewrite Nat.iter_succ, iter_update_cookie by (assumption || lia).
  rewrite update_cookie_last; cbn [food_type lifetime set_lifetime];
    [reflexivity | assumption | lia].
Qed.

Lemma generate_loop_some_board f ex cell attempts remaining p :
  generate_loop f ex cell attempts (S remaining) = Some p ->
  0 < playable_width f /\ 0 < playable_height f.
Proof.
  cbn [generate_loop]. unfold _get_random_position, randint.
  destruct (Z.ltb_spec (playable_start_x f + playable_width f - 1)
              (playable_start_x f)); [discriminate|].
  destruct (Z.ltb_spec (playable_start_y f + playable_height f - 1)
              (playable_start_y f)); [discriminate|].
  intros _. lia.
Qed.

Lemma generate_some_board f ex fps rng r :
  generate f ex fps rng = Some r ->
  0 < playable_width f /\ 0 < playable_height f.
Proof.
  intros Hg.
  destruct (generate_search f ex fps rng) as [(p & f' & _ & Hl) | [Hn _]];
    [|congruence].
  change max_attempts with (S 999) in Hl.
  exact (generate_loop_some_board _ _ _ _ _ _ Hl).
Qed.

Lemma generate_food_spawns g rng :
  0 < playable_width (Game.food g) -> 0 < playable_height (Game.food g) ->
  exists g',
    Game._generate_food g rng = Some g'
    /\ position (Game.food g') <> None.
Proof.
  intros Hw Hh. unfold Game._generate_food.
  destruct (generate_total (Game.food g)
              (Snake.get_body_positions (Game.snake g))
              (Game.current_fps g) rng Hw Hh) as (p & f' & Hg).
  rewrite Hg. cbn [bind]. eexists. split; [reflexivity|].
  cbn [Game.food Game.set_food].
  destruct (generate_fields _ _ _ _ _ _ Hg) as (Hp & _). congruence.
Qed.

Lemma update_game_food_expired g respawn :
  is_expired (Game.food g) = true -> lifetime (Game.food g) <= 0 ->
  Game._update_game_food g respawn = Game._generate_food g respawn.
Proof.
  intros He Hl. unfold Game._update_game_food.
  rewrite update_spent by assumption.
  destruct g; cbn in *. rewrite He. reflexivity.
Qed.

(** C6. A cookie spawned at frame rate [r] lives [4 * r] updates: every
    one of them lowers [lifetime] by one, the position stays until the
    last of them, and after exactly [4 * r] updates the position is
    cleared, the food is flagged expired, and the food part of the next
    simulation step is a re-spawn that places a new food.  [update] leaves
    any food that is not a cookie as it is. *)
Theorem cookie_expiry_spec (f0 f : Food.t) (ex : list Pos) (r : Z)
    (rng : Rng) (p : Pos) :
  0 < r ->
  cookie_roll rng = true ->
  generate f0 ex r rng = Some (p, f) ->
  lifetime f = 4 * r
  /\ (r = 10 -> lifetime f = 40)
  /\ is_cookie f = true
  /\ (forall k : nat,
         Z.of_nat k < 4 * r ->
         let fk := Nat.iter k update f in
         lifetime fk = 4 * r - Z.of_nat k
         /\ lifetime (update fk) = lifetime fk - 1
         /\ position fk = Some p
         /\ is_expired fk = is_expired f0)
  /\ (let fe := Nat.iter (Z.to_nat (4 * r)) update f in
      position fe = None
      /\ is_expired fe = true
      /\ lifetime fe = 0
      /\ forall g respawn,
          Game.food g = fe ->
          Game._update_game_food g respawn = Game._generate_food g respawn
          /\ exists g',
              Game._generate_food g respawn = Some g'
              /\ position (Game.food g') <> None)
  /\ (forall fn, is_cookie fn = false -> update fn = fn).
Proof.
  intros Hr Hroll Hg.
  destruct (generate_some_board _ _ _ _ _ Hg) as [Hw Hh].
  destruct (generate_fields _ _ _ _ _ _ Hg)
    as (Hpos & Hx & Hy & Hpw & Hph & Hcookie & _).
  destruct (Hcookie Hroll) as (Hk & _ & Hl & He).
  change Config.COOKIE_LIFETIME with 4 in Hl.
  split; [assumption|]. split; [intros ->; rewrite Hl; reflexivity|].
  split; [unfold is_cookie; rewrite Hk; reflexivity|].
  split; [|split].
  - intros k Hlt fk. subst fk.
    rewrite iter_update_cookie by (assumption || lia).
    cbn [lifetime position is_expired set_lifetime].
    rewrite Hl. split; [reflexivity|]. split; [|split; assumption].
    destruct (Z.eq_dec (4 * r - Z.of_nat k) 1) as [H1|H1].
    + rewrite update_cookie_last;
        cbn [lifetime food_type set_lifetime set_position set_is_expired];
        [lia | assumption | assumption].
    + rewrite update_cookie_live;
        cbn [lifetime food_type set_lifetime]; [lia | assumption | lia].
  - destruct (Z.to_nat (4 * r)) as [|n] eqn:Hn; [lia|].
    rewrite iter_update_cookie_expired by (assumption || lia).
    cbn [lifetime position is_expired set_lifetime set_is_expired set_position].
    repeat split.
    + apply update_game_food_expired; rewrite H;
        cbn [lifetime is_expired set_position set_is_expired set_lifetime];
        [reflexivity | lia].
    + apply generate_food_spawns; rewrite H;
        cbn [playable_width playable_height set_position set_is_expired
             set_lifetime]; congruence.
  - intros fn Hfn. unfold update. unfold is_cookie in Hfn.
    rewrite Hfn. reflexivity.
Qed.

Lemma cookie_expiry_spec_witness :
  lifetime Scenario.cookie_at_10 = 40
  /\ position (Nat.iter 39 update Scenario.cookie_at_10) = Some (5, 4)
  /\ position (Nat.iter 40 update Scenario.cookie_at_10) = None
  /\ is_expired (Nat.iter 40 update Scenario.cookie_at_10) = true.
Proof.
  destruct (cookie_expiry_spec (Food.init 5 4 30 15) Scenario.cookie_at_10
              [(20, 11); (19, 11); (18, 11)] 10 (Scenario.corner_rng true)
              (5, 4) eq_refl eq_refl eq_refl)
    as (_ & H40 & _ & Hlive & Hend & _).
  split; [exact (H40 eq_refl)|].
  split; [exact (proj1 (proj2 (proj2 (Hlive 39%nat eq_refl))))|].
  split; [exact (proj1 Hend) | exact (proj1 (proj2 Hend))].
Defined.

(** C10 fails on the code.  The food object whose cookie has just
    expired carries [is_expired = true]; when the re-spawn rolls a cookie
    again, [generate] sets a position but leaves the flag, and the food
    part of the next step spawns yet another food. *)
Lemma respawned_cookie_still_expired :
  generate Scenario.expired_cookie [(20, 11); (19, 11); (18, 11)] 4
    (Scenario.corner_rng true)
  = Some ((5, 4), Scenario.respawned_cookie)
  /\ position Scenario.respawned_cookie = Some (5, 4)
  /\ is_expired Scenario.respawned_cookie = true
  /\ Game._update_game_food (Scenario.playing_with Scenario.dying_cookie)
       (Scenario.corner_rng true)
     = Some (Scenario.playing_with Scenario.respawned_cookie)
  /\ forall respawn,
      Game._update_game_food
        (Scenario.playing_with Scenario.respawned_cookie) respawn
      = Game._generate_food
          (Scenario.playing_with (update Scenario.respawned_cookie)) respawn.
Proof.
  repeat (split; [reflexivity|]).
  intros respawn. reflexivity.
Qed.

(** What [generate] does guarantee: a position is always set, and the
    flag is cleared whenever normal food is rolled. *)
Lemma generate_live_unless_stale f ex fps rng p f' :
  generate f ex fps rng = Some (p, f') ->
  position f' = Some p
  /\ (cookie_roll rng = false \/ is_expired f = false -> is_expired f' = false).
Proof.
  intros Hg.
  destruct (generate_fields _ _ _ _ _ _ Hg) as (Hp & _ & _ & _ & _ & Hc & Hn).
  split; [assumption|].
  destruct (cookie_roll rng); intros [H|H]; try discriminate.
  - destruct (Hc eq_refl) as (_ & _ & _ & He). congruence.
  - now apply Hn.
  - now apply Hn.
Qed.

End FoodExpiry.

(** ** Session transitions *)

Section GameSession.
Import Config Random GameState Game.

Lemma snake_reset_init (s : Snake.t) :
  Snake.reset s
  = Snake.init (Snake.playable_start_x s) (Snake.playable_start_y s)
      (Snake.playable_width s) (Snake.playable_height s).
Proof. reflexivity. Qed.

(** C8, as the code has it.  Returning to the menu sets the phase to
    [MENU], the score to 0, the frame rate to [INITIAL_FPS] and the snake
    to its initial layout; the food object and the high score are left as
    they were. *)
Theorem return_to_menu_spec (g : Game.t) :
  let g' := _return_to_menu g in
  state g' = MENU
  /\ score g' = 0
  /\ current_fps g' = INITIAL_FPS
  /\ snake g'
     = Snake.init (Snake.playable_start_x (snake g))
         (Snake.playable_start_y (snake g))
         (Snake.playable_width (snake g))
         (Snake.playable_height (snake g))
  /\ Snake.body (snake g') = [(20, 11); (19, 11); (18, 11)]
  /\ Snake.direction (snake g') = RIGHT
  /\ Snake.next_direction (snake g') = RIGHT
  /\ Snake.grow_pending (snake g') = false
  /\ food g' = food g
  /\ high_score g' = high_score g.
Proof. repeat split. Qed.

(** C8 as stated fails: quitting a game in progress leaves the food
    where it was, neither cleared nor replaced. *)
Lemma return_to_menu_keeps_food :
  food (_return_to_menu Scenario.mid_game) = food Scenario.mid_game
  /\ Food.position (food (_return_to_menu Scenario.mid_game)) = Some (6, 5)
  /\ food (_return_to_menu Scenario.mid_game)
     <> Food.reset (food Scenario.mid_game).
Proof. split; [reflexivity|]. split; [reflexivity | discriminate]. Qed.

Lemma generate_forgets f1 f2 ex fps rng :
  Food.playable_start_x f1 = Food.playable_start_x f2 ->
  Food.playable_start_y f1 = Food.playable_start_y f2 ->
  Food.playable_width f1 = Food.playable_width f2 ->
  Food.playable_height f1 = Food.playable_height f2 ->
  cookie_roll rng = false \/ Food.is_expired f1 = Food.is_expired f2 ->
  Food.generate f1 ex fps rng = Food.generate f2 ex fps rng.
Proof.
  intros Hx Hy Hw Hh Hflag. unfold Food.generate.
  match goal with
  | |- context [Food.generate_loop ?m1 ex (cell rng) 0 Food.max_attempts] =>
      match goal with
      | |- _ = bind (Food.generate_loop ?m2 _ _ _ _) _ =>
          rewrite (generate_loop_board m1 m2)
            by (destruct (cookie_roll rng); assumption)
      end
  end.
  destruct (Food.generate_loop _ _ _ _ _) as [p|]; [|reflexivity].
  cbn [bind]. do 2 f_equal.
  destruct f1, f2; cbn in *; subst.
  destruct (cookie_roll rng); cbn; [|reflexivity].
  destruct Hflag as [H|H]; [discriminate | now subst].
Qed.

(** Apart from the high score, and from the expiry flag of the food when
    a cookie is rolled, [_start_game] forgets the session it starts
    from. *)
Lemma start_game_forgets (g1 g2 : Game.t) (rng : Rng) :
  same_board g1 g2 ->
  cookie_roll rng = false
  \/ Food.is_expired (food g1) = Food.is_expired (food g2) ->
  option_map (fun r => set_high_score r 0) (_restart_game g1 rng)
  = option_map (fun r => set_high_score r 0) (_start_game g2 rng).
Proof.
  intros (Hsx & Hsy & Hsw & Hsh & Hfx & Hfy & Hfw & Hfh) Hflag.
  unfold _restart_game, _start_game, _generate_food.
  cbn [snake food current_fps set_state set_score set_current_fps set_snake].
  rewrite !snake_reset_init, Hsx, Hsy, Hsw, Hsh.
  rewrite (generate_forgets (food g1) (food g2)) by assumption.
  destruct (Food.generate _ _ _ _) as [[p f']|]; reflexivity.
Qed.

(** C9 fails on the code.  The tick on which a cookie expires, the
    re-spawn rolls a cookie again and the snake hits the wall ends in a
    game-over state whose food is flagged expired.  Restarting from it and
    starting from the fresh menu, with the same draws, give sessions that
    differ in that flag, not only in the high score. *)
Lemma restart_differs_from_start :
  _update_game Scenario.last_tick (Scenario.corner_rng true)
    (Scenario.corner_rng false)
  = Some Scenario.crashed
  /\ state Scenario.crashed = GAME_OVER
  /\ Game.init (Scenario.corner_rng false) = Some Scenario.fresh_menu
  /\ exists r1 r2,
      _restart_game Scenario.crashed (Scenario.corner_rng true) = Some r1
      /\ _start_game Scenario.fresh_menu (Scenario.corner_rng true) = Some r2
      /\ Food.is_expired (food r1) = true
      /\ Food.is_expired (food r2) = false
      /\ set_high_score r1 (high_score r2) <> r2.
Proof.
  split; [reflexivity|]. split; [reflexivity|]. split; [reflexivity|].
  do 2 eexists. split; [reflexivity|]. split; [reflexivity|].
  split; [reflexivity|]. split; [reflexivity | discriminate].
Qed.

End GameSession.

(** ** Invariants of the snake *)

Section SnakeInvariants.
Import Snake.

Lemma In_removelast (A : Type) (x : A) (l : list A) :
  In x (removelast l) -> In x l.
Proof.
  induction l as [|a [|b l] IH]; [simpl; tauto | simpl; tauto |].
  change (removelast (a :: b :: l)) with (a :: removelast (b :: l)).
  intros [->|H]; [now left | right; now apply IH].
Qed.

Lemma NoDup_removelast (A : Type) (l : list A) :
  NoDup l -> NoDup (removelast l).
Proof.
  induction l as [|a [|b l] IH]; intros H; [constructor | constructor |].
  change (removelast (a :: b :: l)) with (a :: removelast (b :: l)).
  inversion H as [|? ? Hnin Hnd]; subst. constructor.
  - intros Hin. apply Hnin. now apply In_removelast.
  - now apply IH.
Qed.

Lemma connected_removelast (l : list Pos) :
  connected l -> connected (removelast l).
Proof.
  induction l as [|a [|b [|c l]] IH]; intros H; try exact I.
  change (removelast (a :: b :: c :: l))
    with (a :: b :: removelast (c :: l)).
  destruct H as [Hab Hrest]. split; [assumption|].
  exact (IH Hrest).
Qed.

(** What a returning [move] did, in one case analysis. *)
Lemma move_inv (s s' : Snake.t) (moved : bool) :
  move s = Some (moved, s') ->
  exists head rest,
    body s = head :: rest
    /\ let new_head :=
         (fst head + fst (next_direction s),
          snd head + snd (next_direction s)) in
       (moved = false
        /\ s' = set_direction s (next_direction s)
        /\ (~ in_bounds s new_head \/ In new_head (body s)))
       \/ (moved = true
           /\ in_bounds s new_head
           /\ ~ In new_head (body s)
           /\ s' = (if grow_pending s
                    then set_grow_pending
                           (set_body (set_direction s (next_direction s))
                              (new_head :: body s)) false
                    else set_body (set_direction s (next_direction s))
                           (new_head :: removelast (body s)))).
Proof.
  intros Hm. destruct (move_returns_cons s _ Hm) as (head & rest & Hb).
  exists head, rest. split; [assumption|].
  rewrite (move_cons s head rest Hb) in Hm. cbv zeta in *.
  set (new_head := (fst head + fst (next_direction s),
                    snd head + snd (next_direction s))) in *.
  destruct (_is_valid_position s new_head) eqn:Ev; cbn [negb orb] in Hm.
  - apply is_valid_position_in_bounds in Ev.
    destruct (pos_in new_head (body s)) eqn:Ei.
    + injection Hm as <- <-. left.
      split; [reflexivity|]. split; [reflexivity|].
      right. now apply pos_in_In.
    + injection Hm as <- <-. right.
      split; [reflexivity|]. split; [assumption|]. split; [|reflexivity].
      intros Hin. apply pos_in_In in Hin. congruence.
  - injection Hm as <- <-. left.
    split; [reflexivity|]. split; [reflexivity|].
    left. intros Hin.
    apply is_valid_position_in_bounds in Hin. congruence.
Qed.

Lemma move_same_board (s s' : Snake.t) (moved : bool) (p : Pos) :
  move s = Some (moved, s') -> (in_bounds s' p <-> in_bounds s p).
Proof.
  intros Hm. destruct (move_inv _ _ _ Hm) as (head & rest & _ & H).
  cbv zeta in H. destruct H as [(_ & -> & _) | (_ & _ & _ & ->)].
  - reflexivity.
  - destruct (grow_pending s); reflexivity.
Qed.

Lemma move_nodup (s s' : Snake.t) (moved : bool) :
  move s = Some (moved, s') -> NoDup (body s) -> NoDup (body s').
Proof.
  intros Hm Hnd. destruct (move_inv _ _ _ Hm) as (head & rest & _ & H).
  cbv zeta in H. destruct H as [(_ & -> & _) | (_ & _ & Hfree & ->)].
  - assumption.
  - destruct (grow_pending s); cbn [body set_body set_grow_pending];
      constructor; try assumption.
    + intros Hin. apply Hfree. now apply In_removelast.
    + now apply NoDup_removelast.
Qed.

Lemma move_on_board (s s' : Snake.t) (moved : bool) :
  move s = Some (moved, s') ->
  Forall (in_bounds s) (body s) -> Forall (in_bounds s') (body s').
Proof.
  intros Hm Hall.
  assert (Hsame : forall p, in_bounds s p -> in_bounds s' p)
    by (intros p; apply (move_same_board _ _ _ p Hm)).
  apply Forall_forall. intros p Hin. apply Hsame.
  rewrite Forall_forall in Hall.
  destruct (move_inv _ _ _ Hm) as (head & rest & _ & H).
  cbv zeta in H. destruct H as [(_ & -> & _) | (_ & Hb & _ & ->)].
  - now apply Hall.
  - destruct (grow_pending s); cbn [body set_body set_grow_pending] in Hin;
      destruct Hin as [<-|Hin]; try assumption.
    + now apply Hall.
    + now apply Hall, In_removelast.
Qed.

Lemma move_length (s s' : Snake.t) (moved : bool) :
  move s = Some (moved, s') ->
  List.length (body s')
  = (List.length (body s)
     + if moved && grow_pending s then 1 else 0)%nat.
Proof.
  intros Hm. destruct (move_inv _ _ _ Hm) as (head & rest & Hb & H).
  cbv zeta in H. destruct H as [(-> & -> & _) | (-> & _ & _ & ->)].
  - cbn. lia.
  - assert (Hne : body s <> []) by (rewrite Hb; discriminate).
    pose proof (length_removelast_S _ _ Hne).
    destruct (grow_pending s); cbn [body set_body set_grow_pending andb];
      simpl List.length; lia.
Qed.

(** X1. Whatever [move] returns, a body without repeated cells stays
    without repeated cells, a body inside the playable rectangle stays
    inside it, and the length grows by one exactly on a successful move
    with [grow_pending] set and is unchanged otherwise. *)
Theorem move_keeps_body_sound (s s' : Snake.t) (moved : bool) :
  move s = Some (moved, s') ->
  (NoDup (body s) -> NoDup (body s'))
  /\ (Forall (in_bounds s) (body s) -> Forall (in_bounds s') (body s'))
  /\ List.length (body s')
     = (List.length (body s)
        + if moved && grow_pending s then 1 else 0)%nat.
Proof.
  intros Hm. split; [|split].
  - now apply move_nodup with (moved := moved).
  - now apply move_on_board with (moved := moved).
  - now apply move_length.
Qed.

Lemma move_keeps_body_sound_witness :
  (NoDup (body (Snake.init 5 4 30 15)) -> NoDup (body Scenario.fed_and_moved))
  /\ List.length (body Scenario.fed_and_moved) = (3 + 1)%nat.
Proof.
  destruct (move_keeps_body_sound (grow (Snake.init 5 4 30 15))
              Scenario.fed_and_moved true eq_refl) as (Hnd & _ & Hlen).
  split; [exact Hnd | exact Hlen].
Defined.

Lemma is_unit_not_opposite (d : Pos) : is_unit d -> d <> opposite d.
Proof. intros [ -> | [ -> | [ -> | -> ]]]; discriminate. Qed.

Lemma step_back (h d : Pos) :
  (fst h + fst d - fst h, snd h + snd d - snd h) = d.
Proof. destruct h, d; cbn [fst snd]. f_equal; lia. Qed.

Lemma wf_reset (s : Snake.t) : well_formed (Snake.reset s).
Proof.
  assert (Hu : is_unit (1, 0)) by (right; right; right; reflexivity).
  unfold well_formed, heading. cbn.
  split; [auto|]. split; [reflexivity|].
  split; [exact Hu|]. split; [exact Hu|]. intros _. discriminate.
Qed.

Lemma wf_update_direction (s : Snake.t) (d : Pos) :
  well_formed s -> is_unit d -> well_formed (update_direction s d).
Proof.
  intros (Hc & Hh & Hd & Hn & Hrev) Hu. unfold update_direction.
  destruct ((1 <? List.length (body s))%nat
            && pos_eqb d (opposite (direction s))) eqn:E.
  - repeat split; assumption.
  - unfold well_formed, heading. cbn [body direction next_direction
                                        set_next_direction].
    repeat split; try assumption.
    intros Hlen He. apply Nat.ltb_lt in Hlen. rewrite Hlen in E.
    apply pos_eqb_eq in He. cbn [andb] in E. congruence.
Qed.

Lemma wf_grow (s : Snake.t) : well_formed s -> well_formed (grow s).
Proof. intros H. exact H. Qed.

Lemma wf_move (s s' : Snake.t) :
  well_formed s -> move s = Some (true, s') -> well_formed s'.
Proof.
  intros (Hc & Hh & Hd & Hn & Hrev) Hm.
  destruct (move_inv _ _ _ Hm) as (head & rest & Hb & H).
  cbv zeta in H. destruct H as [(Hf & _) | (_ & _ & _ & ->)];
    [discriminate|].
  pose proof (step_back head (next_direction s)) as Hstep.
  pose proof (is_unit_not_opposite _ Hn) as Hopp.
  rewrite Hb in Hc.
  destruct (grow_pending s); unfold well_formed, heading;
    cbn [body direction next_direction set_body set_direction
         set_grow_pending]; rewrite Hb.
  - cbn [connected fst snd]. rewrite Hstep.
    repeat split; try assumption. intros _. assumption.
  - destruct rest as [|r rest].
    + cbn [removelast connected]. repeat split; try assumption.
      intros _. assumption.
    + change (removelast (head :: r :: rest))
        with (head :: removelast (r :: rest)).
      cbn [connected fst snd]. rewrite Hstep.
      split; [split; [assumption|]|].
      * exact (connected_removelast (head :: r :: rest) Hc).
      * repeat split; try assumption. intros _. assumption.
Qed.

(** X2. The shape of the snake is kept by every operation of play:
    [reset] establishes it, and a direction request with a unit step, a
    growth mark and a successful [move] preserve it.  The body stays
    connected, the head stays one step ahead of the neck in the applied
    direction, and no reversal is ever pending on a snake with a neck. *)
Theorem well_formed_steps (s : Snake.t) :
  well_formed (Snake.reset s)
  /\ (well_formed s ->
      (forall d, is_unit d -> well_formed (update_direction s d))
      /\ well_formed (grow s)
      /\ (forall s', move s = Some (true, s') -> well_formed s')).
Proof.
  split; [apply wf_reset|]. intros Hwf. split; [|split].
  - intros d Hd. now apply wf_update_direction.
  - now apply wf_grow.
  - intros s' Hm. now apply wf_move with (s := s).
Qed.

Lemma well_formed_steps_witness :
  well_formed (update_direction (Snake.init 5 4 30 15) Config.UP)
  /\ well_formed (grow (Snake.init 5 4 30 15))
  /\ well_formed
       (mk 5 4 30 15 [(21, 11); (20, 11); (19, 11)]
           Config.RIGHT Config.RIGHT false).
Proof.
  destruct (well_formed_steps (Snake.init 5 4 30 15)) as [Hinit Hstep].
  destruct (Hstep Hinit) as (Hturn & Hgrow & Hmove).
  split; [|split].
  - apply Hturn. left. reflexivity.
  - exact Hgrow.
  - apply Hmove. reflexivity.
Defined.



Lemma update_direction_same_body (s : Snake.t) (d : Pos) :
  body (update_direction s d) = body s
  /\ playable_start_x (update_direction s d) = playable_start_x s
  /\ playable_start_y (update_direction s d) = playable_start_y s
  /\ playable_width (update_direction s d) = playable_width s
  /\ playable_height (update_direction s d) = playable_height s.
Proof.
  unfold update_direction. destruct (_ && _); repeat split.
Qed.

(** X4. Every snake state that a session can reach from the initial
    layout by direction requests, growth marks and successful moves is
    well formed, has no repeated cell and at least three cells; and when the
    board contains the three initial cells, every cell of every reachable
    body lies inside the board. *)
Theorem reachable_invariant (psx psy pw ph : Z) (s : Snake.t) :
  reachable psx psy pw ph s ->
  well_formed s
  /\ NoDup (body s)
  /\ (3 <= List.length (body s))%nat
  /\ (Forall (in_bounds (Snake.init psx psy pw ph))
        (body (Snake.init psx psy pw ph)) ->
      Forall (in_bounds s) (body s)).
Proof.
  induction 1 as [|s d Hr IH Hd|s Hr IH|s s' Hr IH Hm].
  - split; [apply (wf_reset (Snake.init psx psy pw ph))|].
    split; [|split; [cbn; lia | auto]].
    cbn. repeat constructor; cbn; intuition discriminate.
  - destruct IH as (Hwf & Hnd & Hlen & Hin).
    destruct (update_direction_same_body s d) as (Hb & Hx & Hy & Hw & Hh).
    split; [now apply wf_update_direction|].
    rewrite Hb. split; [assumption|]. split; [assumption|].
    intros H0. specialize (Hin H0).
    eapply Forall_impl; [|exact Hin].
    intros p. unfold in_bounds. rewrite Hx, Hy, Hw, Hh. tauto.
  - exact IH.
  - destruct IH as (Hwf & Hnd & Hlen & Hin).
    split; [now apply wf_move with (s := s)|].
    split; [now apply move_nodup with (s := s) (moved := true)|].
    split.
    + rewrite (move_length _ _ _ Hm). lia.
    + intros H0. apply (move_on_board _ _ _ Hm). auto.
Qed.

Lemma reachable_invariant_witness :
  well_formed Scenario.after_turn_and_move
  /\ NoDup (body Scenario.after_turn_and_move)
  /\ (3 <= List.length (body Scenario.after_turn_and_move))%nat
  /\ Forall (in_bounds Scenario.after_turn_and_move)
       (body Scenario.after_turn_and_move).
Proof.
  assert (Hr : reachable 5 4 30 15 Scenario.after_turn_and_move).
  { apply reach_move
      with (s := update_direction (Snake.init 5 4 30 15) Config.UP).
    - apply reach_turn; [apply reach_init | left; reflexivity].
    - reflexivity. }
  destruct (reachable_invariant 5 4 30 15 _ Hr) as (Hwf & Hnd & Hlen & Hin).
  split; [assumption|]. split; [assumption|]. split; [assumption|].
  apply Hin. repeat constructor; unfold in_bounds; cbn; lia.
Defined.

Lemma py_nth_nonneg (A : Type) (l : list A) (i : Z) :
  0 <= i -> py_nth l i = nth_error l (Z.to_nat i).
Proof.
  intros Hi. unfold py_nth. destruct (Z.ltb_spec i 0); [lia | reflexivity].
Qed.

Lemma connected_nth (l : list Pos) :
  connected l ->
  forall i a b,
    nth_error l i = Some a -> nth_error l (S i) = Some b ->
    is_unit (fst a - fst b, snd a - snd b).
Proof.
  induction l as [|x [|y l] IH]; intros Hc i a b Ha Hb.
  - destruct i; discriminate.
  - destruct i as [|[|i]]; discriminate.
  - destruct Hc as [Hxy Hrest]. destruct i as [|i].
    + cbn in Ha, Hb. injection Ha as <-. injection Hb as <-. assumption.
    + exact (IH Hrest i a b Ha Hb).
Qed.

Lemma body_segment_type_total (s : Snake.t) (i : Z) :
  0 <= i ->
  exists k,
    _get_body_segment_type s i = Some k
    /\ (k = "horizontal"%string \/ k = "vertical"%string).
Proof.
  intros Hi. unfold _get_body_segment_type.
  destruct (Z.eqb_spec i 0) as [H0|H0]; cbn [orb]; [eauto|].
  destruct (Z.leb_spec (Z.of_nat (List.length (body s)) - 1) i) as [Hl|Hl];
    [eauto|].
  rewrite !py_nth_nonneg by lia.
  destruct (nth_error (body s) (Z.to_nat i)) as [current|] eqn:Ec.
  2:{ apply nth_error_None in Ec. lia. }
  destruct (nth_error (body s) (Z.to_nat (i - 1))) as [prev|] eqn:Ep.
  2:{ apply nth_error_None in Ep. lia. }
  destruct (nth_error (body s) (Z.to_nat (i + 1))) as [next_seg|] eqn:En.
  2:{ apply nth_error_None in En. lia. }
  cbn [bind]. destruct (pos_eqb _ _); [destruct (negb _)|]; eauto.
Qed.

(** X5. [_get_body_segment_type] never raises on a non-negative index
    and answers horizontal or vertical.  On a connected body without
    repeated cells, the cell between [prev] and [next] is typed vertical
    exactly when the three cells share a column; every other interior
    cell, corners included, is typed horizontal. *)
Theorem body_segment_type_spec (s : Snake.t) :
  (forall i, 0 <= i ->
     exists k,
       _get_body_segment_type s i = Some k
       /\ (k = "horizontal"%string \/ k = "vertical"%string))
  /\ (connected (body s) -> NoDup (body s) ->
      forall (i : nat) (prev current next_seg : Pos),
        nth_error (body s) i = Some prev ->
        nth_error (body s) (S i) = Some current ->
        nth_error (body s) (S (S i)) = Some next_seg ->
        _get_body_segment_type s (Z.of_nat (S i))
        = Some (if (fst prev =? fst current) && (fst current =? fst next_seg)
                then "vertical"%string else "horizontal"%string)).
Proof.
  split; [intros i Hi; now apply body_segment_type_total|].
  intros Hc Hnd i prev current next_seg Hp Hcur Hn.
  assert (Hlen : (S (S i) < List.length (body s))%nat)
    by (apply nth_error_Some; congruence).
  unfold _get_body_segment_type.
  destruct (Z.eqb_spec (Z.of_nat (S i)) 0) as [H0|_]; [lia|]. cbn [orb].
  destruct (Z.leb_spec (Z.of_nat (List.length (body s)) - 1) (Z.of_nat (S i)));
    [lia|].
  rewrite !py_nth_nonneg by lia.
  replace (Z.to_nat (Z.of_nat (S i))) with (S i) by lia.
  replace (Z.to_nat (Z.of_nat (S i) - 1)) with i by lia.
  replace (Z.to_nat (Z.of_nat (S i) + 1)) with (S (S i)) by lia.
  rewrite Hcur, Hp, Hn. cbn [bind].
  pose proof (connected_nth _ Hc _ _ _ Hp Hcur) as Hu1.
  pose proof (connected_nth _ Hc _ _ _ Hcur Hn) as Hu2.
  assert (Hne : prev <> next_seg).
  { intros He. subst next_seg.
    pose proof (proj1 (NoDup_nth_error (body s)) Hnd i (S (S i))) as Hinj.
    assert (i = S (S i)); [|lia].
    apply Hinj; [lia | congruence]. }
  destruct prev as [px py], current as [cx cy], next_seg as [nx ny].
  assert (Hne' : px <> nx \/ py <> ny).
  { destruct (Z.eq_dec px nx) as [->|]; [|now left].
    right. intros ->. now apply Hne. }
  unfold pos_eqb. cbn [fst snd] in *.
  destruct Hu1 as [H1|[H1|[H1|H1]]]; injection H1 as H1x H1y;
    destruct Hu2 as [H2|[H2|[H2|H2]]]; injection H2 as H2x H2y;
    repeat match goal with
           | |- context [?a =? ?b] => destruct (Z.eqb_spec a b)
           end; cbn [andb negb]; try reflexivity; lia.
Qed.

Lemma body_segment_type_spec_witness :
  _get_body_segment_type Scenario.turning 1 = Some "horizontal"%string
  /\ _get_body_segment_type Scenario.turning 2 = Some "vertical"%string.
Proof.
  destruct (body_segment_type_spec Scenario.turning) as [_ H].
  assert (Hc : connected (body Scenario.turning)).
  { cbn. repeat split; try (left; reflexivity);
      try (right; right; right; reflexivity). }
  assert (Hnd : NoDup (body Scenario.turning)).
  { cbn. repeat constructor; cbn; intuition discriminate. }
  split.
  - exact (H Hc Hnd 0%nat _ _ _ eq_refl eq_refl eq_refl).
  - exact (H Hc Hnd 1%nat _ _ _ eq_refl eq_refl eq_refl).
Defined.

End SnakeInvariants.

(** ** More on food *)

Section FoodMore.
Import Food Random.

(** X6. [generate] raises exactly on a board without cells: it returns a
    position whenever width and height are positive, and fails on the
    first [randint] otherwise. *)
Theorem generate_raises_iff (f : Food.t) (ex : list Pos) (fps : Z) (rng : Rng) :
  generate f ex fps rng = None
  <-> playable_width f <= 0 \/ playable_height f <= 0.
Proof.
  split.
  - intros Hnone.
    destruct (Z_le_gt_dec (playable_width f) 0) as [Hw|Hw]; [now left|].
    destruct (Z_le_gt_dec (playable_height f) 0) as [Hh|Hh]; [now right|].
    destruct (generate_total f ex fps rng) as (p & f' & Hg); [lia | lia |].
    congruence.
  - intros Hboard.
    destruct (generate f ex fps rng) as [r|] eqn:Hg; [|reflexivity].
    destruct (generate_some_board _ _ _ _ _ Hg). lia.
Qed.

Lemma update_fixed (f : Food.t) :
  is_cookie f && (0 <? lifetime f) = false -> update f = f.
Proof. intros H. unfold update. unfold is_cookie in H. now rewrite H. Qed.

Lemma iter_fixed (A : Type) (g : A -> A) (x : A) (k : nat) :
  g x = x -> Nat.iter k g x = x.
Proof.
  intros H. induction k as [|k IH]; [reflexivity|].
  rewrite Nat.iter_succ, IH. assumption.
Qed.

Lemma iter_plus (A : Type) (g : A -> A) (x : A) (m n : nat) :
  Nat.iter (m + n) g x = Nat.iter m g (Nat.iter n g x).
Proof.
  induction m as [|m IH]; [reflexivity|].
  change (S m + n)%nat with (S (m + n)). rewrite !Nat.iter_succ, IH.
  reflexivity.
Qed.

(** X7. The closed form of any number of [update]s.  A food that is not
    a cookie, or a cookie whose lifetime is not positive, is never changed.
    A cookie with positive lifetime [L] just counts down during the first
    [L - 1] updates; from the [L]-th update on it is expired, without
    position and with lifetime 0, and stays so. *)
Theorem update_iterated (f : Food.t) (k : nat) :
  Nat.iter k update f
  = if is_cookie f && (0 <? lifetime f) then
      if Z.of_nat k <? lifetime f
      then set_lifetime f (lifetime f - Z.of_nat k)
      else set_position (set_is_expired (set_lifetime f 0) true) None
    else f.
Proof.
  destruct (is_cookie f && (0 <? lifetime f)) eqn:E.
  - apply andb_true_iff in E. destruct E as [Hk Hl].
    apply String.eqb_eq in Hk. apply Z.ltb_lt in Hl.
    destruct (Z.ltb_spec (Z.of_nat k) (lifetime f)) as [Hlt|Hge].
    + now apply iter_update_cookie.
    + destruct (Z.to_nat (lifetime f)) as [|n] eqn:Hn; [lia|].
      replace k with ((k - S n) + S n)%nat by lia.
      rewrite iter_plus, iter_update_cookie_expired by (assumption || lia).
      apply iter_fixed, update_spent. cbn. lia.
  - apply iter_fixed. now apply update_fixed.
Qed.

(** X8. A food object that went through [reset] spawns a live food
    whatever is rolled: the position is set, the flag is clear, and kind,
    value and lifetime go together (cookie, 20 and [4 * fps]; or normal, 10
    and 0). *)
Theorem generate_after_reset (f f' : Food.t) (ex : list Pos) (fps : Z)
    (rng : Rng) (p : Pos) :
  generate (Food.reset f) ex fps rng = Some (p, f') ->
  position f' = Some p
  /\ is_expired f' = false
  /\ (is_cookie f' = true /\ value f' = 20 /\ lifetime f' = 4 * fps
      \/ is_cookie f' = false /\ value f' = 10 /\ lifetime f' = 0).
Proof.
  intros Hg.
  destruct (generate_fields _ _ _ _ _ _ Hg)
    as (Hp & _ & _ & _ & _ & Hc & Hn).
  split; [assumption|].
  destruct (cookie_roll rng).
  - destruct (Hc eq_refl) as (Hk & Hv & Hl & He).
    split; [rewrite He; reflexivity|]. left.
    unfold is_cookie. rewrite Hk. auto.
  - destruct (Hn eq_refl) as (Hk & Hv & Hl & He).
    split; [assumption|]. right.
    unfold is_cookie. rewrite Hk. auto.
Qed.

Lemma generate_after_reset_witness :
  position Scenario.respawned_live = Some (5, 4)
  /\ is_expired Scenario.respawned_live = false
  /\ (is_cookie Scenario.respawned_live = true
      /\ value Scenario.respawned_live = 20
      /\ lifetime Scenario.respawned_live = 4 * 4
      \/ is_cookie Scenario.respawned_live = false
         /\ value Scenario.respawned_live = 10
         /\ lifetime Scenario.respawned_live = 0).
Proof.
  exact (generate_after_reset Scenario.expired_cookie
           Scenario.respawned_live [(20, 11); (19, 11); (18, 11)] 4
           (Scenario.corner_rng true) (5, 4) eq_refl).
Defined.

End FoodMore.

(** ** More on the session *)

Section GameMore.
Import Config Random GameState Game.

(** X9. For a score that is not negative, [_update_speed] gives a frame
    rate between [INITIAL_FPS] and [MAX_FPS]; the cap is reached exactly
    from a score of 330 on, and below it the rate is [4 + score // 30]. *)
Theorem update_speed_bounds (g : Game.t) :
  0 <= score g ->
  INITIAL_FPS <= current_fps (_update_speed g) <= MAX_FPS
  /\ (current_fps (_update_speed g) = MAX_FPS <-> 330 <= score g)
  /\ (score g < 330 -> current_fps (_update_speed g) = 4 + score g / 30).
Proof.
  intros Hs. rewrite update_speed_fps. unfold spec_tick_rate.
  change INITIAL_FPS with 4. change MAX_FPS with 15.
  change SPEED_INCREASE_INTERVAL with 30. change SPEED_INCREASE_AMOUNT with 1.
  pose proof (Z.div_mod (score g) 30 ltac:(lia)) as Hdm.
  pose proof (Z.mod_pos_bound (score g) 30 ltac:(lia)) as Hmod.
  set (q := score g / 30) in *. set (r := score g mod 30) in *.
  split; [lia|]. split; [split; intros H; lia | intros H; lia].
Qed.

Lemma update_speed_bounds_witness :
  4 <= current_fps (_update_speed (Scenario.with_score 329)) <= 15
  /\ current_fps (_update_speed (Scenario.with_score 329)) = 4 + 329 / 30
  /\ current_fps (_update_speed (Scenario.with_score 330)) = 15.
Proof.
  destruct (update_speed_bounds (Scenario.with_score 329) ltac:(cbn; lia))
    as (Hb & _ & Hlow).
  destruct (update_speed_bounds (Scenario.with_score 330) ltac:(cbn; lia))
    as (_ & Hcap & _).
  split; [exact Hb|]. split; [apply Hlow; cbn; lia|].
  apply Hcap. cbn. lia.
Defined.

(** X10. Eating adds the value of the food to the score, recomputes the
    frame rate from the new score and marks one growth, whatever the kind
    of food: the two [grow] calls for a cookie leave the same snake as
    one, so the next successful move lengthens the body by one cell only
    and clears the mark. *)
Theorem eat_food_one_growth (g : Game.t) :
  snake (_eat_food g) = Snake.grow (snake g)
  /\ score (_eat_food g) = score g + Food.value (food g)
  /\ current_fps (_eat_food g)
     = spec_tick_rate INITIAL_FPS SPEED_INCREASE_INTERVAL SPEED_INCREASE_AMOUNT
         MAX_FPS (score g + Food.value (food g))
  /\ food (_eat_food g) = food g
  /\ state (_eat_food g) = state g
  /\ high_score (_eat_food g) = high_score g
  /\ forall s',
      Snake.move (snake (_eat_food g)) = Some (true, s') ->
      List.length (Snake.body s') = S (List.length (Snake.body (snake g)))
      /\ Snake.grow_pending s' = false.
Proof.
  assert (Hs : snake (_eat_food g) = Snake.grow (snake g)).
  { unfold _eat_food. cbn [food set_score].
    destruct (Food.is_cookie (food g)); reflexivity. }
  split; [exact Hs|].
  split; [unfold _eat_food; destruct (Food.is_cookie _); reflexivity|].
  split; [unfold _eat_food; destruct (Food.is_cookie _); reflexivity|].
  split; [unfold _eat_food; destruct (Food.is_cookie _); reflexivity|].
  split; [unfold _eat_food; destruct (Food.is_cookie _); reflexivity|].
  split; [unfold _eat_food; destruct (Food.is_cookie _); reflexivity|].
  intros s' Hm. rewrite Hs in Hm. split.
  - rewrite (move_length _ _ _ Hm). cbn. lia.
  - destruct (move_inv _ _ _ Hm) as (head & rest & _ & H).
    cbv zeta in H. destruct H as [(Hf & _) | (_ & _ & _ & ->)];
      [discriminate | reflexivity].
Qed.

Lemma eat_food_one_growth_witness :
  List.length (Snake.body Scenario.fed_and_moved) = 4%nat
  /\ Snake.grow_pending Scenario.fed_and_moved = false.
Proof.
  destruct (eat_food_one_growth
              (Scenario.playing_with Scenario.cookie_at_10))
    as (_ & _ & _ & _ & _ & _ & H).
  exact (H Scenario.fed_and_moved eq_refl).
Defined.

Lemma update_same_board (f : Food.t) :
  Food.playable_start_x (Food.update f) = Food.playable_start_x f
  /\ Food.playable_start_y (Food.update f) = Food.playable_start_y f
  /\ Food.playable_width (Food.update f) = Food.playable_width f
  /\ Food.playable_height (Food.update f) = Food.playable_height f
  /\ Food.value (Food.update f) = Food.value f.
Proof.
  unfold Food.update. destruct (_ && _); [|repeat split].
  cbn [Food.lifetime Food.set_lifetime]. destruct (_ <=? _); repeat split.
Qed.

Lemma generate_food_inv (g g' : Game.t) (rng : Rng) :
  _generate_food g rng = Some g' ->
  exists p f',
    Food.generate (food g) (Snake.body (snake g)) (current_fps g) rng
    = Some (p, f')
    /\ g' = set_food g f'.
Proof.
  unfold _generate_food, Snake.get_body_positions.
  destruct (Food.generate _ _ _ _) as [[p f']|]; [|discriminate].
  cbn [bind]. intros H. injection H as <-. eauto.
Qed.

(** The food part of a step changes nothing but the food object, which
    stays on its board and keeps or renews its value. *)
Lemma update_game_food_inv (g gf : Game.t) (respawn : Rng) :
  _update_game_food g respawn = Some gf ->
  exists f, gf = set_food g f
    /\ Food.playable_start_x f = Food.playable_start_x (food g)
    /\ Food.playable_start_y f = Food.playable_start_y (food g)
    /\ Food.playable_width f = Food.playable_width (food g)
    /\ Food.playable_height f = Food.playable_height (food g)
    /\ (Food.value f = Food.value (food g)
        \/ Food.value f = 10 \/ Food.value f = 20).
Proof.
  unfold _update_game_food. cbn [food set_food].
  destruct (update_same_board (food g)) as (Hx & Hy & Hw & Hh & Hv).
  destruct (Food.is_expired (Food.update (food g))).
  - intros Hg. destruct (generate_food_inv _ _ _ Hg) as (p & f' & Hgen & ->).
    cbn [food set_food] in Hgen.
    destruct (generate_fields _ _ _ _ _ _ Hgen)
      as (_ & Hx' & Hy' & Hw' & Hh' & Hc & Hn).
    exists f'. split; [destruct g; reflexivity|].
    rewrite Hx', Hy', Hw', Hh'. repeat split; try assumption.
    right. destruct (cookie_roll respawn).
    + right. now destruct (Hc eq_refl) as (_ & -> & _).
    + left. now destruct (Hn eq_refl) as (_ & -> & _).
  - intros H. injection H as <-. exists (Food.update (food g)).
    repeat split; try assumption. now left.
Qed.

Lemma is_eaten_iff (f : Food.t) (head : Pos) :
  Food.is_eaten f head = true <-> Food.position f = Some head.
Proof.
  unfold Food.is_eaten. destruct (Food.position f) as [p|].
  - rewrite pos_eqb_eq. split; congruence.
  - split; discriminate.
Qed.

Lemma game_over_fields (g : Game.t) :
  state (_game_over g) = GAME_OVER
  /\ score (_game_over g) = score g
  /\ current_fps (_game_over g) = current_fps g
  /\ snake (_game_over g) = snake g
  /\ food (_game_over g) = food g
  /\ high_score (_game_over g) = Z.max (high_score g) (score g).
Proof.
  unfold _game_over. cbn [high_score score set_state].
  destruct (Z.ltb_spec (high_score g) (score g));
    cbn; repeat split; lia.
Qed.

(** X11. What one simulation step does.  The food part never touches the
    snake, so the step ends the game exactly when [Snake.move] fails on the
    snake as it was: then the score and the frame rate are kept and the high
    score becomes the larger of itself and the score.  When the move
    succeeds the phase and the high score are kept; the score grows, by the
    value of the food, exactly when the new head is on the food, and then
    a growth is marked, the frame rate follows the new score and a new food
    is placed. *)
Theorem update_game_outcome (g g' : Game.t) (respawn eaten : Rng) :
  _update_game g respawn eaten = Some g' ->
  exists gf,
    _update_game_food g respawn = Some gf
    /\ snake gf = snake g
    /\ ((exists s',
            Snake.move (snake g) = Some (false, s')
            /\ state g' = GAME_OVER
            /\ snake g' = s'
            /\ score g' = score g
            /\ current_fps g' = current_fps g
            /\ food g' = food gf
            /\ high_score g' = Z.max (high_score g) (score g))
        \/ (exists s',
               Snake.move (snake g) = Some (true, s')
               /\ state g' = state g
               /\ high_score g' = high_score g
               /\ (Food.position (food gf) <> hd_error (Snake.body s')
                   /\ g' = set_snake gf s'
                   \/ Food.position (food gf) = hd_error (Snake.body s')
                      /\ score g' = score g + Food.value (food gf)
                      /\ snake g' = Snake.grow s'
                      /\ current_fps g'
                         = spec_tick_rate INITIAL_FPS SPEED_INCREASE_INTERVAL
                             SPEED_INCREASE_AMOUNT MAX_FPS (score g')
                      /\ Food.position (food g') <> None))).
Proof.
  unfold _update_game. intros Hstep.
  destruct (_update_game_food g respawn) as [gf|] eqn:Hfood; [|discriminate].
  cbn [bind] in Hstep. exists gf. split; [reflexivity|].
  destruct (update_game_food_inv _ _ _ Hfood) as (f & -> & _).
  split; [reflexivity|].
  unfold _update_game_snake in Hstep. cbn [snake set_food] in Hstep.
  destruct (Snake.move (snake g)) as [[moved s']|] eqn:Hm; [|discriminate].
  cbn [bind] in Hstep. destruct moved; cbn [negb] in Hstep.
  - right. exists s'. split; [reflexivity|].
    unfold Snake.get_head_position in Hstep.
    cbn [snake set_snake set_food food] in Hstep.
    destruct (hd_error (Snake.body s')) as [head|] eqn:Hhd; [|discriminate].
    cbn [bind] in Hstep.
    destruct (Food.is_eaten f head) eqn:He.
    + apply is_eaten_iff in He.
      destruct (generate_food_inv _ _ _ Hstep) as (p & f' & Hgen & ->).
      destruct (generate_fields _ _ _ _ _ _ Hgen) as (Hp & _).
      split; [unfold _eat_food; destruct (Food.is_cookie _); reflexivity|].
      split; [unfold _eat_food; destruct (Food.is_cookie _); reflexivity|].
      right. split; [exact He|].
      split; [unfold _eat_food; destruct (Food.is_cookie _); reflexivity|].
      split; [unfold _eat_food; destruct (Food.is_cookie _); reflexivity|].
      split; [unfold _eat_food; destruct (Food.is_cookie _); reflexivity|].
      cbn [food set_food]. congruence.
    + injection Hstep as <-. split; [reflexivity|]. split; [reflexivity|].
      left. split; [|reflexivity].
      cbn [food set_food]. intros Hpos. apply is_eaten_iff in Hpos. congruence.
  - left. exists s'. split; [reflexivity|]. injection Hstep as <-.
    destruct (game_over_fields (set_snake (set_food g f) s'))
      as (H1 & H2 & H3 & H4 & H5 & H6).
    repeat split; assumption.
Qed.

Lemma update_game_outcome_witness :
  exists gf,
    _update_game_food Scenario.last_tick (Scenario.corner_rng true) = Some gf
    /\ snake gf = snake Scenario.last_tick
    /\ state Scenario.crashed = GAME_OVER
    /\ high_score Scenario.crashed = 50.
Proof.
  destruct (update_game_outcome Scenario.last_tick Scenario.crashed
              (Scenario.corner_rng true) (Scenario.corner_rng false) eq_refl)
    as (gf & Hf & Hs & [(s' & _ & Hst & _ & _ & _ & _ & Hh)
                       | (s' & Hm & _)]).
  - exists gf. split; [assumption|]. split; [assumption|].
    split; [assumption | exact Hh].
  - discriminate Hm.
Defined.

Lemma move_total (s : Snake.t) :
  Snake.body s <> [] -> exists moved s', Snake.move s = Some (moved, s').
Proof.
  intros Hne. destruct (Snake.body s) as [|head rest] eqn:Hb; [congruence|].
  rewrite (move_cons s head rest Hb). destruct (negb _ || _); eauto.
Qed.

Lemma update_game_returns (g : Game.t) (respawn eaten : Rng) :
  0 < Food.playable_width (food g) ->
  0 < Food.playable_height (food g) ->
  Snake.body (snake g) <> [] ->
  exists g', _update_game g respawn eaten = Some g'.
Proof.
  intros Hw Hh Hne. unfold _update_game.
  assert (Hfood : exists gf, _update_game_food g respawn = Some gf).
  { unfold _update_game_food.
    destruct (Food.is_expired _); [|eauto].
    destruct (update_same_board (food g)) as (_ & _ & Hw' & Hh' & _).
    destruct (generate_food_spawns
                (set_food g (Food.update (food g))) respawn)
      as (g' & Hg & _); cbn [food set_food]; [lia | lia | eauto]. }
  destruct Hfood as (gf & Hfood). rewrite Hfood. cbn [bind].
  destruct (update_game_food_inv _ _ _ Hfood)
    as (f & -> & _ & _ & Hfw & Hfh & _).
  unfold _update_game_snake. cbn [snake set_food].
  destruct (move_total _ Hne) as (moved & s' & Hm). rewrite Hm. cbn [bind].
  destruct moved; cbn [negb]; [|eauto].
  unfold Snake.get_head_position. cbn [snake set_snake].
  pose proof (move_keeps_body _ _ _ Hm) as Hne'.
  destruct (Snake.body s') as [|head rest]; [congruence|].
  cbn [hd_error bind]. destruct (Food.is_eaten _ _); [|eauto].
  destruct (generate_food_spawns
              (_eat_food (set_snake (set_food g f) s')) eaten)
    as (g' & Hg & _); [| |eauto];
    unfold _eat_food; destruct (Food.is_cookie _); cbn; lia.
Qed.

Lemma start_game_returns (g : Game.t) (rng : Rng) :
  0 < Food.playable_width (food g) ->
  0 < Food.playable_height (food g) ->
  exists g', _start_game g rng = Some g'.
Proof.
  intros Hw Hh. unfold _start_game.
  destruct (generate_food_spawns
              (set_snake
                 (set_current_fps (set_score (set_state g PLAYING) 0)
                    INITIAL_FPS)
                 (Snake.reset (snake g))) rng) as (g' & Hg & _);
    [exact Hw | exact Hh | eauto].
Qed.

(** X12. On a session whose food board has positive width and height,
    neither starting or restarting a game nor, when the snake has at least
    one cell, a simulation step ever raises; and building the session
    ([SnakeGame.__init__]) always succeeds. *)
Theorem update_game_total (g : Game.t) (respawn eaten : Rng) :
  (exists g0, Game.init respawn = Some g0)
  /\ (0 < Food.playable_width (food g) ->
      0 < Food.playable_height (food g) ->
      (exists g', _start_game g respawn = Some g')
      /\ (exists g', _restart_game g respawn = Some g')
      /\ (Snake.body (snake g) <> [] ->
          exists g', _update_game g respawn eaten = Some g')).
Proof.
  split.
  - unfold Game.init.
    destruct (generate_food_spawns
                (mk MENU 0 0 INITIAL_FPS (Snake.init 5 4 30 15)
                   (Food.init 5 4 30 15)) respawn) as (g0 & Hg & _);
      [reflexivity | reflexivity | eauto].
  - intros Hw Hh. split; [|split].
    + now apply start_game_returns.
    + unfold _restart_game. now apply start_game_returns.
    + intros Hne. now apply update_game_returns.
Qed.

Lemma update_game_total_witness :
  exists g',
    _update_game Scenario.mid_game (Scenario.corner_rng false)
      (Scenario.corner_rng true) = Some g'.
Proof.
  destruct (update_game_total Scenario.mid_game (Scenario.corner_rng false)
              (Scenario.corner_rng true)) as (_ & H).
  destruct (H eq_refl eq_refl) as (_ & _ & Hstep).
  apply Hstep. discriminate.
Defined.

(** X13. Pausing a game in progress and resuming it gives the session
    back unchanged, and [_update] does nothing while the game is paused,
    over or in the menu. *)
Theorem pause_resume_roundtrip (g : Game.t) (respawn eaten : Rng) :
  (state g = PLAYING -> _resume_game (_pause_game g) = g)
  /\ (state g = PAUSED -> _pause_game (_resume_game g) = g)
  /\ _update (_pause_game g) respawn eaten = Some (_pause_game g)
  /\ (state g <> PLAYING -> _update g respawn eaten = Some g).
Proof.
  split; [|split; [|split]].
  - intros H. destruct g; cbn in *. now subst.
  - intros H. destruct g; cbn in *. now subst.
  - reflexivity.
  - intros H. unfold _update.
    destruct (String.eqb_spec (state g) PLAYING); [contradiction | reflexivity].
Qed.

Lemma pause_resume_roundtrip_witness :
  _resume_game (_pause_game Scenario.mid_game) = Scenario.mid_game
  /\ _update Scenario.crashed (Scenario.corner_rng true)
       (Scenario.corner_rng true) = Some Scenario.crashed.
Proof.
  destruct (pause_resume_roundtrip Scenario.mid_game (Scenario.corner_rng true)
              (Scenario.corner_rng true)) as (H1 & _).
  destruct (pause_resume_roundtrip Scenario.crashed (Scenario.corner_rng true)
              (Scenario.corner_rng true)) as (_ & _ & _ & H4).
  split; [apply H1; reflexivity | apply H4; discriminate].
Defined.

End GameMore.

(** ** Sessions *)

Section Sessions.
Import Config Random GameState Game.

Lemma move_geometry (s s' : Snake.t) (moved : bool) :
  Snake.move s = Some (moved, s') ->
  Snake.playable_start_x s' = Snake.playable_start_x s
  /\ Snake.playable_start_y s' = Snake.playable_start_y s
  /\ Snake.playable_width s' = Snake.playable_width s
  /\ Snake.playable_height s' = Snake.playable_height s.
Proof.
  intros Hm. destruct (move_inv _ _ _ Hm) as (head & rest & _ & H).
  cbv zeta in H. destruct H as [(_ & -> & _) | (_ & _ & _ & ->)].
  - repeat split.
  - destruct (Snake.grow_pending s); repeat split.
Qed.

Lemma move_failed_body (s s' : Snake.t) :
  Snake.move s = Some (false, s') -> Snake.body s' = Snake.body s.
Proof.
  intros Hm. destruct (move_inv _ _ _ Hm) as (head & rest & _ & H).
  cbv zeta in H. destruct H as [(_ & -> & _) | (Hf & _)];
    [reflexivity | discriminate].
Qed.

Lemma move_connected (s s' : Snake.t) :
  well_formed s -> Snake.move s = Some (true, s') ->
  connected (Snake.body s').
Proof. intros Hwf Hm. exact (proj1 (wf_move _ _ Hwf Hm)). Qed.

Lemma in_bounds_same (s1 s2 : Snake.t) (l : list Pos) :
  Snake.playable_start_x s1 = Snake.playable_start_x s2 ->
  Snake.playable_start_y s1 = Snake.playable_start_y s2 ->
  Snake.playable_width s1 = Snake.playable_width s2 ->
  Snake.playable_height s1 = Snake.playable_height s2 ->
  Forall (in_bounds s2) l -> Forall (in_bounds s1) l.
Proof.
  intros Hx Hy Hw Hh. apply Forall_impl. intros p.
  unfold in_bounds. rewrite Hx, Hy, Hw, Hh. tauto.
Qed.

(** The snake that [reset] leaves on the board of the game. *)
Lemma reset_on_game_board (s : Snake.t) :
  Snake.playable_start_x s = 5 -> Snake.playable_start_y s = 4 ->
  Snake.playable_width s = 30 -> Snake.playable_height s = 15 ->
  Snake.reset s = Snake.init 5 4 30 15
  /\ NoDup (Snake.body (Snake.reset s))
  /\ Forall (in_bounds (Snake.reset s)) (Snake.body (Snake.reset s))
  /\ connected (Snake.body (Snake.reset s))
  /\ (3 <= List.length (Snake.body (Snake.reset s)))%nat.
Proof.
  intros Hx Hy Hw Hh. rewrite snake_reset_init, Hx, Hy, Hw, Hh.
  split; [reflexivity|]. split; [|split; [|split]].
  - cbn. repeat constructor; cbn; intuition discriminate.
  - repeat constructor; unfold in_bounds; cbn; lia.
  - exact (proj1 (wf_reset (Snake.init 5 4 30 15))).
  - cbn. lia.
Qed.

Lemma direction_map_unit (key : Key) (d : Pos) :
  direction_map key = Some d -> is_unit d.
Proof.
  unfold is_unit, UP, DOWN, LEFT, RIGHT.
  destruct key; cbn; intros H; try discriminate; injection H as <-; auto.
Qed.

Lemma generate_on_board (f f' : Food.t) (ex : list Pos) (fps : Z)
    (rng : Rng) (p : Pos) :
  Food.generate f ex fps rng = Some (p, f') ->
  Food.playable_start_x f' = Food.playable_start_x f
  /\ Food.playable_start_y f' = Food.playable_start_y f
  /\ Food.playable_width f' = Food.playable_width f
  /\ Food.playable_height f' = Food.playable_height f
  /\ (Food.value f' = 10 \/ Food.value f' = 20).
Proof.
  intros Hg.
  destruct (generate_fields _ _ _ _ _ _ Hg) as (_ & Hx & Hy & Hw & Hh & Hc & Hn).
  repeat split; try assumption.
  destruct (cookie_roll rng).
  - right. now destruct (Hc eq_refl) as (_ & -> & _).
  - left. now destruct (Hn eq_refl) as (_ & -> & _).
Qed.

Lemma session_ok_start (g g' : Game.t) (rng : Rng) :
  session_ok g -> _start_game g rng = Some g' ->
  session_ok g' /\ state g' = PLAYING.
Proof.
  intros (Hst & Hboard & _ & _ & _ & _ & _ & _ & _ & _ & Hhs & _ & _) Hstart.
  destruct Hboard as (Hx & Hy & Hw & Hh & Hfx & Hfy & Hfw & Hfh).
  unfold _start_game in Hstart.
  destruct (generate_food_inv _ _ _ Hstart) as (p & f' & Hgen & ->).
  cbn [food snake current_fps set_state set_score set_current_fps set_snake]
    in Hgen.
  destruct (generate_on_board _ _ _ _ _ _ Hgen) as (Hx' & Hy' & Hw' & Hh' & Hv).
  destruct (reset_on_game_board (snake g) Hx Hy Hw Hh)
    as (Hr & Hnd & Hin & Hc & Hlen).
  split; [|reflexivity].
  unfold session_ok, on_game_board.
  cbn [state score high_score current_fps snake food set_food set_snake
       set_current_fps set_score set_state].
  split; [auto|].
  split; [rewrite Hr, Hx', Hy', Hw', Hh'; repeat split; assumption|].
  split; [assumption|]. split; [assumption|]. split; [assumption|].
  split; [assumption|]. split; [intros _; apply wf_reset|].
  split; [lia|]. split; [reflexivity|]. split; [reflexivity|].
  split; [assumption|]. split; [discriminate | assumption].
Qed.

Lemma session_ok_menu (g : Game.t) :
  session_ok g -> session_ok (_return_to_menu g).
Proof.
  intros (Hst & Hboard & _ & _ & _ & _ & _ & _ & _ & _ & Hhs & _ & Hv).
  destruct Hboard as (Hx & Hy & Hw & Hh & Hfx & Hfy & Hfw & Hfh).
  destruct (reset_on_game_board (snake g) Hx Hy Hw Hh)
    as (Hr & Hnd & Hin & Hc & Hlen).
  unfold session_ok, on_game_board, _return_to_menu.
  cbn [state score high_score current_fps snake food set_food set_snake
       set_current_fps set_score set_state].
  split; [auto|].
  split; [rewrite Hr; repeat split; assumption|].
  split; [assumption|]. split; [assumption|]. split; [assumption|].
  split; [assumption|]. split; [intros _; apply wf_reset|].
  split; [lia|]. split; [reflexivity|]. split; [reflexivity|].
  split; [assumption|]. split; [discriminate | assumption].
Qed.

Lemma session_ok_set_state (g : Game.t) (st : string) :
  session_ok g -> state g <> GAME_OVER ->
  st = PLAYING \/ st = PAUSED ->
  session_ok (set_state g st).
Proof.
  intros (Hst & Hboard & Hnd & Hin & Hc & Hlen & Hwf & Hs & Hm & Hf & Hhs
          & Hgo & Hv) Hne Hto.
  unfold session_ok, on_game_board.
  cbn [state score high_score current_fps snake food set_state].
  split; [tauto|]. split; [exact Hboard|].
  split; [assumption|]. split; [assumption|]. split; [assumption|].
  split; [assumption|]. split; [intros _; now apply Hwf|].
  split; [assumption|]. split; [assumption|]. split; [assumption|].
  split; [assumption|]. split; [|assumption].
  intros He. destruct Hto as [-> | ->]; discriminate.
Qed.

Lemma session_ok_movement (g : Game.t) (key : Key) :
  session_ok g -> state g <> GAME_OVER ->
  session_ok (_handle_movement_key g key).
Proof.
  intros Hok Hne. unfold _handle_movement_key.
  destruct (direction_map key) as [d|] eqn:Hd; [|assumption].
  apply direction_map_unit in Hd.
  destruct Hok as (Hst & Hboard & Hnd & Hin & Hc & Hlen & Hwf & Hs & Hm & Hf
                   & Hhs & Hgo & Hv).
  destruct Hboard as (Hx & Hy & Hw & Hh & Hfb).
  destruct (update_direction_same_body (snake g) d)
    as (Hb & Hx' & Hy' & Hw' & Hh').
  unfold session_ok, on_game_board.
  cbn [state score high_score current_fps snake food set_snake].
  rewrite Hb, Hx', Hy', Hw', Hh'.
  split; [assumption|]. split; [repeat split; tauto|].
  split; [assumption|].
  split; [apply (in_bounds_same _ (snake g)); assumption|].
  split; [assumption|]. split; [assumption|].
  split; [intros _; apply wf_update_direction; auto|].
  repeat (split; [assumption|]). assumption.
Qed.

(** The three ways through one simulation step. *)
Lemma update_game_cases (g g' : Game.t) (respawn eaten : Rng) :
  _update_game g respawn eaten = Some g' ->
  exists f,
    _update_game_food g respawn = Some (set_food g f)
    /\ Food.playable_start_x f = Food.playable_start_x (food g)
    /\ Food.playable_start_y f = Food.playable_start_y (food g)
    /\ Food.playable_width f = Food.playable_width (food g)
    /\ Food.playable_height f = Food.playable_height (food g)
    /\ (Food.value f = Food.value (food g)
        \/ Food.value f = 10 \/ Food.value f = 20)
    /\ ((exists s',
            Snake.move (snake g) = Some (false, s')
            /\ g' = _game_over (set_snake (set_food g f) s'))
        \/ (exists s',
               Snake.move (snake g) = Some (true, s')
               /\ g' = set_snake (set_food g f) s')
        \/ (exists s' p f',
               Snake.move (snake g) = Some (true, s')
               /\ Food.generate f (Snake.body s')
                    (spec_tick_rate INITIAL_FPS SPEED_INCREASE_INTERVAL
                       SPEED_INCREASE_AMOUNT MAX_FPS
                       (score g + Food.value f)) eaten
                  = Some (p, f')
               /\ g' = mk (state g) (score g + Food.value f) (high_score g)
                         (spec_tick_rate INITIAL_FPS SPEED_INCREASE_INTERVAL
                            SPEED_INCREASE_AMOUNT MAX_FPS
                            (score g + Food.value f))
                         (Snake.grow s') f')).
Proof.
  unfold _update_game. intros Hstep.
  destruct (_update_game_food g respawn) as [gf|] eqn:Hfood; [|discriminate].
  cbn [bind] in Hstep.
  destruct (update_game_food_inv _ _ _ Hfood)
    as (f & -> & Hx & Hy & Hw & Hh & Hv).
  exists f. split; [reflexivity|].
  repeat (split; [assumption|]).
  unfold _update_game_snake in Hstep. cbn [snake set_food] in Hstep.
  destruct (Snake.move (snake g)) as [[moved s']|] eqn:Hm; [|discriminate].
  cbn [bind] in Hstep. destruct moved; cbn [negb] in Hstep.
  - right. unfold Snake.get_head_position in Hstep.
    cbn [snake set_snake set_food food] in Hstep.
    destruct (hd_error (Snake.body s')) as [head|]; [|discriminate].
    cbn [bind] in Hstep.
    destruct (Food.is_eaten f head).
    + right. destruct (generate_food_inv _ _ _ Hstep) as (p & f' & Hgen & ->).
      exists s', p, f'. split; [reflexivity|].
      unfold _eat_food in *. cbn [food set_food set_snake set_score] in *.
      destruct (Food.is_cookie f); cbn in Hgen |- *; split;
        solve [exact Hgen | reflexivity].
    + left. exists s'. injection Hstep as <-. split; reflexivity.
  - left. exists s'. injection Hstep as <-. split; reflexivity.
Qed.

Lemma score_step (n v : Z) :
  0 <= n -> n mod 10 = 0 -> v = 10 \/ v = 20 ->
  0 <= n + v /\ (n + v) mod 10 = 0.
Proof.
  intros Hn Hm Hv. split; [lia|].
  rewrite Z.add_mod, Hm by lia. destruct Hv as [-> | ->]; reflexivity.
Qed.

Lemma session_ok_update_game (g g' : Game.t) (respawn eaten : Rng) :
  session_ok g -> state g = PLAYING ->
  _update_game g respawn eaten = Some g' ->
  session_ok g'.
Proof.
  intros (Hst & Hboard & Hnd & Hin & Hc & Hlen & Hwf & Hs & Hm & Hf & Hhs
          & Hgo & Hv) Hplay Hstep.
  destruct Hboard as (Hx & Hy & Hw & Hh & Hfx & Hfy & Hfw & Hfh).
  assert (Hwf' : well_formed (snake g))
    by (apply Hwf; rewrite Hplay; discriminate).
  destruct (update_game_cases _ _ _ _ Hstep)
    as (f & _ & Hx' & Hy' & Hw' & Hh' & Hvf & Hcases).
  assert (Hvf' : Food.value f = 10 \/ Food.value f = 20)
    by (destruct Hvf as [-> | H]; assumption).
  destruct Hcases as [(s' & Hmove & ->) | [(s' & Hmove & ->)
                                         | (s' & p & f' & Hmove & Hgen & ->)]].
  - (* the move failed *)
    destruct (move_geometry _ _ _ Hmove) as (Gx & Gy & Gw & Gh).
    pose proof (move_failed_body _ _ Hmove) as Hb.
    destruct (game_over_fields (set_snake (set_food g f) s'))
      as (E1 & E2 & E3 & E4 & E5 & E6).
    unfold session_ok, on_game_board. rewrite E1, E2, E3, E4, E5, E6.
    cbn [state score high_score current_fps snake food set_snake set_food].
    rewrite Hb, Gx, Gy, Gw, Gh, Hx', Hy', Hw', Hh'.
    split; [auto|]. split; [repeat split; assumption|].
    split; [assumption|].
    split; [apply (in_bounds_same _ (snake g)); assumption|].
    split; [assumption|]. split; [assumption|].
    split; [intros H; now elim H|].
    split; [assumption|]. split; [assumption|]. split; [assumption|].
    split; [lia|]. split; [intros _; lia | assumption].
  - (* the move succeeded, nothing eaten *)
    destruct (move_geometry _ _ _ Hmove) as (Gx & Gy & Gw & Gh).
    unfold session_ok, on_game_board.
    cbn [state score high_score current_fps snake food set_snake set_food].
    rewrite Gx, Gy, Gw, Gh, Hx', Hy', Hw', Hh'.
    split; [assumption|]. split; [repeat split; assumption|].
    split; [now apply (move_nodup _ _ _ Hmove)|].
    split; [now apply (move_on_board _ _ _ Hmove)|].
    split; [now apply move_connected with (s := snake g)|].
    split; [rewrite (move_length _ _ _ Hmove); lia|].
    split; [intros _; now apply wf_move with (s := snake g)|].
    repeat (split; [assumption|]). assumption.
  - (* the move succeeded onto the food *)
    destruct (move_geometry _ _ _ Hmove) as (Gx & Gy & Gw & Gh).
    destruct (generate_on_board _ _ _ _ _ _ Hgen)
      as (Fx & Fy & Fw & Fh & Fv).
    destruct (score_step _ _ Hs Hm Hvf') as (Hs' & Hm').
    unfold session_ok, on_game_board.
    cbn [state score high_score current_fps snake food Snake.grow
         Snake.set_grow_pending Snake.body Snake.playable_start_x
         Snake.playable_start_y Snake.playable_width Snake.playable_height].
    rewrite Gx, Gy, Gw, Gh, Fx, Fy, Fw, Fh, Hx', Hy', Hw', Hh'.
    split; [assumption|]. split; [repeat split; assumption|].
    split; [now apply (move_nodup _ _ _ Hmove)|].
    split.
    { apply (in_bounds_same _ s'); try reflexivity.
      now apply (move_on_board _ _ _ Hmove). }
    split; [now apply move_connected with (s := snake g)|].
    split; [rewrite (move_length _ _ _ Hmove); lia|].
    split.
    { intros _. apply (wf_grow s'). now apply wf_move with (s := snake g). }
    split; [assumption|]. split; [assumption|]. split; [reflexivity|].
    split; [assumption|]. split; [|assumption].
    intros He. rewrite Hplay in He. discriminate.
Qed.

Lemma session_ok_board_pos (g : Game.t) :
  session_ok g ->
  0 < Food.playable_width (food g)
  /\ 0 < Food.playable_height (food g)
  /\ Snake.body (snake g) <> [].
Proof.
  intros (_ & Hboard & _ & _ & _ & Hlen & _).
  destruct Hboard as (_ & _ & _ & _ & _ & _ & Hw & Hh).
  rewrite Hw, Hh. repeat split; try lia.
  intros He. rewrite He in Hlen. cbn in Hlen. lia.
Qed.

Lemma session_ok_init (rng : Rng) (g0 : Game.t) :
  Game.init rng = Some g0 -> session_ok g0 /\ state g0 = MENU.
Proof.
  unfold Game.init. intros Hinit.
  destruct (generate_food_inv _ _ _ Hinit) as (p & f' & Hgen & ->).
  cbn [food snake current_fps] in Hgen.
  destruct (generate_on_board _ _ _ _ _ _ Hgen) as (Hx & Hy & Hw & Hh & Hv).
  destruct (reset_on_game_board (Snake.init 5 4 30 15)
              eq_refl eq_refl eq_refl eq_refl)
    as (_ & Hnd & Hin & Hc & Hlen).
  split; [|reflexivity].
  unfold session_ok, on_game_board.
  cbn [state score high_score current_fps snake food set_food].
  rewrite Hx, Hy, Hw, Hh.
  split; [auto|]. split; [repeat split|].
  split; [exact Hnd|]. split; [exact Hin|]. split; [exact Hc|].
  split; [exact Hlen|].
  split; [intros _; exact (wf_reset (Snake.init 5 4 30 15))|].
  split; [lia|]. split; [reflexivity|]. split; [reflexivity|].
  split; [lia|]. split; [discriminate | assumption].
Qed.

(** A key press keeps a session sound; it ends the process only for
    Escape in the menu and never raises. *)
Lemma session_ok_keydown (g : Game.t) (key : Key) (rng : Rng) :
  session_ok g ->
  match _handle_keydown g key rng with
  | Continue g' => session_ok g'
  | Exit => state g = MENU /\ key = K_ESCAPE
  | Raise => False
  end.
Proof.
  intros Hok.
  destruct (session_ok_board_pos g Hok) as (Hw & Hh & _).
  destruct (start_game_returns g rng Hw Hh) as (gs & Hgs).
  pose proof (session_ok_start g gs rng Hok Hgs) as [Hoks _].
  pose proof (session_ok_menu g Hok) as Hokm.
  pose proof Hok as (Hst & _).
  unfold _handle_keydown, _restart_game.
  destruct Hst as [Hst | [Hst | [Hst | Hst]]]; rewrite Hst; cbn [String.eqb];
    cbv beta iota delta [MENU PLAYING PAUSED GAME_OVER String.eqb Ascii.eqb
                         Bool.eqb].
  - destruct key; try exact Hok; try (rewrite Hgs; exact Hoks).
    split; reflexivity.
  - assert (Hne : state g <> GAME_OVER) by (rewrite Hst; discriminate).
    destruct key;
      try (apply session_ok_movement; assumption);
      try exact Hokm.
    apply session_ok_set_state; auto.
  - assert (Hne : state g <> GAME_OVER) by (rewrite Hst; discriminate).
    destruct key; try exact Hok; try exact Hokm.
    apply session_ok_set_state; auto.
  - destruct key; try exact Hok; try exact Hokm.
    rewrite Hgs. exact Hoks.
Qed.

Lemma session_ok_step (g : Game.t) (e : event) :
  session_ok g ->
  match step g e with
  | Continue g' => session_ok g'
  | Exit => True
  | Raise => False
  end.
Proof.
  intros Hok. destruct e as [key rng | respawn eaten]; cbn [step].
  - pose proof (session_ok_keydown g key rng Hok) as H.
    destruct (_handle_keydown g key rng); auto.
  - unfold _update.
    destruct (String.eqb_spec (state g) PLAYING) as [Hp|Hp]; [|exact Hok].
    destruct (session_ok_board_pos g Hok) as (Hw & Hh & Hne).
    destruct (update_game_returns g respawn eaten Hw Hh Hne) as (g' & Hg).
    rewrite Hg. cbn [of_option].
    now apply (session_ok_update_game g g' respawn eaten).
Qed.

(** X14. Whatever keys are pressed and however the random draws fall, a
    session built by [SnakeGame.__init__] never raises, and after every
    event it is in one of the four phases, on the 30 x 15 board, with a
    connected snake body of at least three cells that lies inside the board
    and has no repeated cell; the score is a non-negative multiple of 10,
    the frame rate is the one the speed rule gives for that score, and on
    game over the high score is at least the score. *)
Theorem session_invariant (rng0 : Rng) (es : list event) :
  exists g0,
    Game.init rng0 = Some g0
    /\ session_ok g0
    /\ match run g0 es with
       | Continue g => session_ok g
       | Exit => True
       | Raise => False
       end.
Proof.
  assert (Hinit : exists g0, Game.init rng0 = Some g0).
  { unfold Game.init.
    destruct (generate_food_spawns
                (mk MENU 0 0 INITIAL_FPS (Snake.init 5 4 30 15)
                   (Food.init 5 4 30 15)) rng0) as (g0 & Hg & _);
      [reflexivity | reflexivity | eauto]. }
  destruct Hinit as (g0 & Hinit). exists g0. split; [assumption|].
  destruct (session_ok_init _ _ Hinit) as [Hok _]. split; [assumption|].
  clear Hinit. revert g0 Hok.
  induction es as [|e es IH]; intros g Hok; cbn [run]; [assumption|].
  pose proof (session_ok_step g e Hok) as Hstep.
  destruct (step g e) as [g'| |]; [now apply IH | exact I | contradiction].
Qed.

Lemma keydown_high_score (g g' : Game.t) (key : Key) (rng : Rng) :
  _handle_keydown g key rng = Continue g' -> high_score g' = high_score g.
Proof.
  assert (Hstart : forall g1, _start_game g rng = Some g1 ->
                              high_score g1 = high_score g).
  { intros g1 H. unfold _start_game in H.
    destruct (generate_food_inv _ _ _ H) as (p & f' & _ & ->). reflexivity. }
  assert (Hmove : high_score (_handle_movement_key g key) = high_score g).
  { unfold _handle_movement_key. destruct (direction_map key); reflexivity. }
  unfold _handle_keydown, _restart_game.
  destruct (String.eqb (state g) MENU).
  { destruct key; intros H; try (injection H as <-; reflexivity);
      try discriminate;
      destruct (_start_game g rng) as [g1|] eqn:E; try discriminate;
      injection H as <-; now apply Hstart. }
  destruct (String.eqb (state g) PLAYING).
  { destruct key; intros H; injection H as <-;
      solve [reflexivity | exact Hmove]. }
  destruct (String.eqb (state g) PAUSED).
  { destruct key; intros H; injection H as <-; reflexivity. }
  destruct (String.eqb (state g) GAME_OVER).
  { destruct key; intros H; try (injection H as <-; reflexivity);
      destruct (_start_game g rng) as [g1|] eqn:E; try discriminate;
      injection H as <-; now apply Hstart. }
  intros H. injection H as <-. reflexivity.
Qed.

Lemma update_high_score (g g' : Game.t) (respawn eaten : Rng) :
  _update g respawn eaten = Some g' -> high_score g <= high_score g'.
Proof.
  unfold _update. destruct (String.eqb (state g) PLAYING).
  - intros Hstep.
    destruct (update_game_cases _ _ _ _ Hstep)
      as (f & _ & _ & _ & _ & _ & _ & Hcases).
    destruct Hcases as [(s' & _ & ->) | [(s' & _ & ->)
                                       | (s' & p & f' & _ & _ & ->)]].
    + destruct (game_over_fields (set_snake (set_food g f) s'))
        as (_ & _ & _ & _ & _ & ->). cbn. lia.
    + cbn. lia.
    + cbn. lia.
  - intros H. injection H as <-. lia.
Qed.

(** X15. From any session, along any sequence of key presses and
    updates, the high score never decreases; a key press never changes
    it. *)
Theorem high_score_monotone (g g' : Game.t) (es : list event) :
  run g es = Continue g' ->
  high_score g <= high_score g'
  /\ (forall key rng g1,
         _handle_keydown g key rng = Continue g1 ->
         high_score g1 = high_score g).
Proof.
  intros Hrun. split.
  - revert g Hrun. induction es as [|e es IH]; intros g Hrun; cbn [run] in Hrun.
    + injection Hrun as <-. lia.
    + destruct (step g e) as [g1| |] eqn:Hs; try discriminate.
      specialize (IH g1 Hrun).
      destruct e as [key rng | respawn eaten]; cbn [step] in Hs.
      * rewrite (keydown_high_score _ _ _ _ Hs) in IH. exact IH.
      * destruct (_update g respawn eaten) as [g2|] eqn:Hu; [|discriminate].
        injection Hs as ->.
        pose proof (update_high_score _ _ _ _ Hu). lia.
  - intros key rng g1. apply keydown_high_score.
Qed.

Lemma high_score_monotone_witness :
  high_score Scenario.last_tick <= high_score Scenario.crashed.
Proof.
  exact (proj1 (high_score_monotone Scenario.last_tick Scenario.crashed
                  [Tick (Scenario.corner_rng true) (Scenario.corner_rng false)]
                  eq_refl)).
Defined.

End Sessions.

(** ** Grid helpers *)

Section GridHelpers.
Import Config Random Utils.

(** X16. Grid and pixel coordinates: a cell converted to pixels and back
    is the same cell, also for negative coordinates; a pixel converted to
    its cell and back lands on the corner of that cell, at most 31 pixels
    up and left of it, and is unchanged exactly when both coordinates are
    multiples of the cell size. *)
Theorem grid_pixel_roundtrip (p : Pos) :
  pixel_to_grid (grid_to_pixel p) = p
  /\ (fst (grid_to_pixel (pixel_to_grid p)) <= fst p
      < fst (grid_to_pixel (pixel_to_grid p)) + CELL_SIZE)
  /\ (snd (grid_to_pixel (pixel_to_grid p)) <= snd p
      < snd (grid_to_pixel (pixel_to_grid p)) + CELL_SIZE)
  /\ (grid_to_pixel (pixel_to_grid p) = p
      <-> fst p mod CELL_SIZE = 0 /\ snd p mod CELL_SIZE = 0).
Proof.
  destruct p as [x y]. unfold pixel_to_grid, grid_to_pixel, CELL_SIZE.
  cbn [fst snd].
  pose proof (Z.div_mod x 32 ltac:(lia)) as Hx.
  pose proof (Z.mod_pos_bound x 32 ltac:(lia)) as Hxm.
  pose proof (Z.div_mod y 32 ltac:(lia)) as Hy.
  pose proof (Z.mod_pos_bound y 32 ltac:(lia)) as Hym.
  split; [rewrite !Z.div_mul by lia; reflexivity|].
  split; [lia|]. split; [lia|]. split.
  - intros H. injection H as H1 H2. lia.
  - intros [H1 H2]. f_equal; lia.
Qed.

(** X17. [clamp_position] always lands in the 30 x 15 grid, walls
    included; it is idempotent, it leaves a position unchanged exactly when
    the position is in the grid, and so it never moves a position that
    [is_valid_position] accepts. *)
Theorem clamp_position_spec (p : Pos) :
  (0 <= fst (clamp_position p) <= GRID_WIDTH - 1
   /\ 0 <= snd (clamp_position p) <= GRID_HEIGHT - 1)
  /\ clamp_position (clamp_position p) = clamp_position p
  /\ (clamp_position p = p
      <-> 0 <= fst p <= GRID_WIDTH - 1 /\ 0 <= snd p <= GRID_HEIGHT - 1)
  /\ (is_valid_position p = true -> clamp_position p = p).
Proof.
  destruct p as [x y].
  unfold clamp_position, is_valid_position, GRID_WIDTH, GRID_HEIGHT.
  cbn [fst snd].
  split; [lia|]. split; [f_equal; lia|]. split; [split|].
  - intros H. injection H as H1 H2. lia.
  - intros H. f_equal; lia.
  - rewrite !andb_true_iff, !Z.leb_le, !Z.ltb_lt. intros H. f_equal; lia.
Qed.

Lemma clamp_position_spec_witness :
  clamp_position (7, 3) = (7, 3).
Proof.
  destruct (clamp_position_spec (7, 3)) as (_ & _ & _ & H).
  apply H. reflexivity.
Defined.

Lemma grid_randint (r : Z * Z) :
  randint 1 (GRID_WIDTH - 2) (fst r) = Some (fst (grid_drawn r))
  /\ randint 1 (GRID_HEIGHT - 2) (snd r) = Some (snd (grid_drawn r)).
Proof. split; reflexivity. Qed.

Lemma grid_drawn_valid (r : Z * Z) : is_valid_position (grid_drawn r) = true.
Proof.
  unfold is_valid_position, grid_drawn, GRID_WIDTH, GRID_HEIGHT.
  pose proof (Z.mod_pos_bound (fst r) 28 ltac:(lia)).
  pose proof (Z.mod_pos_bound (snd r) 13 ltac:(lia)).
  change (30 - 2) with 28. change (15 - 2) with 13.
  rewrite !andb_true_iff, !Z.leb_le, !Z.ltb_lt. lia.
Qed.

Lemma get_random_position_step ex cell attempts fuel :
  get_random_position ex cell attempts (S fuel)
  = if negb (pos_in (grid_drawn (cell attempts)) ex)
    then Some (grid_drawn (cell attempts))
    else get_random_position ex cell (S attempts) fuel.
Proof. reflexivity. Qed.

Lemma get_random_position_loop ex cell fuel :
  forall attempts,
    (exists i,
        (attempts <= i < attempts + fuel)%nat
        /\ ~ In (grid_drawn (cell i)) ex
        /\ (forall j, (attempts <= j < i)%nat -> In (grid_drawn (cell j)) ex)
        /\ get_random_position ex cell attempts fuel
           = Some (grid_drawn (cell i)))
    \/ ((forall i, (attempts <= i < attempts + fuel)%nat ->
                   In (grid_drawn (cell i)) ex)
        /\ get_random_position ex cell attempts fuel = None).
Proof.
  induction fuel as [|fuel IH]; intros attempts.
  - right. split; [intros i Hi; lia | reflexivity].
  - rewrite get_random_position_step.
    destruct (pos_in (grid_drawn (cell attempts)) ex) eqn:Ein; cbn [negb].
    + apply pos_in_In in Ein.
      destruct (IH (S attempts))
        as [(i & Hi & Hfree & Hbefore & Hres) | [Hall Hres]].
      * left. exists i. split; [lia|]. split; [assumption|].
        split; [|assumption].
        intros j Hj. destruct (Nat.eq_dec j attempts) as [->|Hne];
          [assumption | apply Hbefore; lia].
      * right. split; [|assumption].
        intros i Hi. destruct (Nat.eq_dec i attempts) as [->|Hne];
          [assumption | apply Hall; lia].
    + left. exists attempts.
      split; [lia|]. split; [|split; [intros j Hj; lia | reflexivity]].
      intros Hin. apply pos_in_In in Hin. congruence.
Qed.

(** X18. The unbounded search of [utils.get_random_position].  It
    returns as soon as a drawn cell is not excluded, and then the result is
    that first free cell, accepted by [is_valid_position]; running the loop
    longer does not change the result.  When every draw lands on an
    excluded cell, as it must once all cells are excluded, the loop never
    returns. *)
Theorem get_random_position_spec (ex : list Pos) (cell : nat -> Z * Z) :
  (forall i,
      ~ In (grid_drawn (cell i)) ex ->
      exists j,
        (j <= i)%nat
        /\ ~ In (grid_drawn (cell j)) ex
        /\ is_valid_position (grid_drawn (cell j)) = true
        /\ forall fuel,
            (j < fuel)%nat ->
            get_random_position ex cell 0 fuel = Some (grid_drawn (cell j)))
  /\ ((forall i, In (grid_drawn (cell i)) ex) ->
      forall fuel, get_random_position ex cell 0 fuel = None)
  /\ (forall fuel p,
         get_random_position ex cell 0 fuel = Some p ->
         is_valid_position p = true /\ ~ In p ex).
Proof.
  split; [|split].
  - intros i Hfree.
    destruct (get_random_position_loop ex cell (S i) 0%nat)
      as [(j & Hj & Hjfree & Hbefore & _) | [Hall _]].
    2:{ exfalso. apply Hfree, Hall. lia. }
    exists j. split; [lia|]. split; [assumption|].
    split; [apply grid_drawn_valid|].
    intros fuel Hfuel.
    destruct (get_random_position_loop ex cell fuel 0%nat)
      as [(k & Hk & Hkfree & Hkbefore & Hres) | [Hall _]].
    + rewrite Hres. do 2 f_equal.
      destruct (Nat.lt_trichotomy j k) as [Hlt | [-> | Hgt]];
        [|reflexivity|].
      * exfalso. apply Hjfree, Hkbefore. lia.
      * exfalso. apply Hkfree, Hbefore. lia.
    + exfalso. apply Hjfree, Hall. lia.
  - intros Hall fuel.
    destruct (get_random_position_loop ex cell fuel 0%nat)
      as [(k & _ & Hkfree & _) | [_ Hres]]; [|assumption].
    exfalso. apply Hkfree, Hall.
  - intros fuel p Hres.
    destruct (get_random_position_loop ex cell fuel 0%nat)
      as [(k & _ & Hkfree & _ & Hres') | [_ Hres']]; [|congruence].
    rewrite Hres' in Hres. injection Hres as <-.
    split; [apply grid_drawn_valid | assumption].
Qed.

Lemma get_random_position_spec_witness :
  exists j,
    (j <= 0)%nat
    /\ get_random_position [(5, 5)] (fun _ => (0, 0)) 0 3 = Some (grid_drawn (0, 0)).
Proof.
  destruct (get_random_position_spec [(5, 5)] (fun _ => (0, 0))) as (H & _).
  destruct (H 0%nat) as (j & Hj & _ & _ & Hres).
  - cbn. intros [E|[]]. discriminate.
  - exists j. split; [assumption|].
    replace j with 0%nat in Hres by lia. apply Hres. lia.
Defined.

End GridHelpers.

(** ** Key presses *)

Section KeyPresses.
Import Config Random GameState Game.

(** X19. What a key press can do to the phase.  The only changes are
    menu to playing, playing to paused or menu, paused to playing or menu,
    and game over to playing or menu.  A key press that keeps the phase
    changes nothing at all outside the playing phase, and in the playing
    phase it changes at most the direction request of the snake. *)
Theorem keydown_transitions (g g' : Game.t) (key : Key) (rng : Rng) :
  _handle_keydown g key rng = Continue g' ->
  (state g' = state g
   /\ (state g <> PLAYING -> g' = g)
   /\ (g' = g
       \/ exists d,
           direction_map key = Some d
           /\ g' = set_snake g (Snake.update_direction (snake g) d)))
  \/ (state g = MENU /\ state g' = PLAYING)
  \/ (state g = PLAYING /\ (state g' = PAUSED \/ state g' = MENU))
  \/ (state g = PAUSED /\ (state g' = PLAYING \/ state g' = MENU))
  \/ (state g = GAME_OVER /\ (state g' = PLAYING \/ state g' = MENU)).
Proof.
  assert (Hstart : forall g1, _start_game g rng = Some g1 -> state g1 = PLAYING).
  { intros g1 H. unfold _start_game in H.
    destruct (generate_food_inv _ _ _ H) as (p & f' & _ & ->). reflexivity. }
  assert (Hkeep : g' = g ->
                  state g' = state g /\ (state g <> PLAYING -> g' = g)
                  /\ (g' = g
                      \/ exists d,
                          direction_map key = Some d
                          /\ g' = set_snake g
                                    (Snake.update_direction (snake g) d)))
    by (intros ->; auto).
  unfold _handle_keydown, _restart_game.
  destruct (String.eqb_spec (state g) MENU) as [Hm|Hm].
  { destruct key; intros H;
      try (injection H as <-; left; now apply Hkeep);
      try discriminate;
      destruct (_start_game g rng) as [g1|] eqn:E; try discriminate;
      injection H as <-; right; left; (split; [assumption | now apply Hstart]). }
  destruct (String.eqb_spec (state g) PLAYING) as [Hp|Hp].
  { destruct key; intros H; injection H as <-;
      try (right; right; left; (split; [assumption|]); cbn; auto; fail);
      left; unfold _handle_movement_key; cbn [direction_map];
      (split; [reflexivity|]); (split; [intros Hn; contradiction|]);
      solve [left; reflexivity | right; eexists; split; reflexivity]. }
  destruct (String.eqb_spec (state g) PAUSED) as [Hpa|Hpa].
  { destruct key; intros H; injection H as <-;
      try (left; now apply Hkeep);
      right; right; right; left; (split; [assumption|]); cbn; auto. }
  destruct (String.eqb_spec (state g) GAME_OVER) as [Hgo|Hgo].
  { destruct key; intros H;
      try (injection H as <-; left; now apply Hkeep);
      try (injection H as <-; right; right; right; right;
           (split; [assumption|]); cbn; auto; fail);
      destruct (_start_game g rng) as [g1|] eqn:E; try discriminate;
      injection H as <-; right; right; right; right;
      (split; [assumption|]); left; now apply Hstart. }
  intros H. injection H as <-. left. now apply Hkeep.
Qed.

Lemma keydown_transitions_witness :
  state Scenario.mid_game = PLAYING
  /\ (state (_pause_game Scenario.mid_game) = PAUSED
      \/ state (_pause_game Scenario.mid_game) = MENU).
Proof.
  destruct (keydown_transitions Scenario.mid_game
              (_pause_game Scenario.mid_game) K_SPACE
              (Scenario.corner_rng false) eq_refl)
    as [(H & _) | [(H & _) | [H | [(H & _) | (H & _)]]]];
    try discriminate H.
  exact H.
Defined.

End KeyPresses.

(** ** The single-file game *)

Section LegacySnake.
Import Legacy.

Lemma can_change_direction_iff (s : Snake) (d : Direction) :
  can_change_direction s d = false <-> d = reverse (direction s).
Proof.
  unfold can_change_direction.
  destruct (direction s), d; cbn; split; intros H;
    solve [reflexivity | discriminate].
Qed.

Lemma removelast_cons (A : Type) (x : A) (l : list A) :
  l <> [] -> removelast (x :: l) = x :: removelast l.
Proof. destruct l; [congruence | reflexivity]. Qed.

(** What [move] does on a non-empty body. *)
Lemma legacy_move_inv (s : Snake) (head : Pos) (rest : list Pos) :
  body s = head :: rest ->
  exists s',
    move s = Some s'
    /\ direction s' <> reverse (direction s)
    /\ (next_direction s <> reverse (direction s) ->
        direction s' = next_direction s)
    /\ (next_direction s = reverse (direction s) ->
        direction s' = direction s)
    /\ next_direction s' = next_direction s
    /\ body s'
       = (fst head + fst (value (direction s')),
          snd head + snd (value (direction s')))
         :: removelast (body s)
    /\ List.length (body s') = List.length (body s).
Proof.
  intros Hb. destruct s as [b d nd]. cbn [body] in Hb. subst b.
  pose proof (length_removelast_S _ (head :: rest) ltac:(discriminate))
    as Hlen.
  unfold move. cbn [body direction next_direction].
  destruct (can_change_direction (mkSnake (head :: rest) d nd) nd) eqn:E.
  - assert (Hn : nd <> reverse d).
    { intros H.
      apply (can_change_direction_iff (mkSnake (head :: rest) d nd)) in H.
      congruence. }
    cbn [body direction next_direction].
    eexists. split; [reflexivity|].
    cbn [body direction next_direction].
    rewrite removelast_cons by discriminate.
    split; [assumption|]. split; [reflexivity|].
    split; [intros H; contradiction|]. split; [reflexivity|].
    split; [reflexivity|]. cbn [List.length] in *. exact Hlen.
  - apply can_change_direction_iff in E. cbn [direction] in E.
    cbn [body direction next_direction].
    eexists. split; [reflexivity|].
    cbn [body direction next_direction].
    rewrite removelast_cons by discriminate.
    split; [destruct d; discriminate|].
    split; [intros H; contradiction|]. split; [reflexivity|].
    split; [reflexivity|]. split; [reflexivity|].
    cbn [List.length] in *. exact Hlen.
Qed.

(** X20. [Snake.move] of the single-file game returns on every non-empty
    body and keeps its length: the new body is the cell in front of the
    head followed by the old body without its last cell.  The direction
    after the move is never the reverse of the direction before it: the
    queued direction is applied unless it is that reverse, in which case it
    is ignored.  [set_direction] ignores a request for the reverse of the
    current direction and never changes the direction itself. *)
Theorem legacy_move_spec (s : Snake) (head : Pos) (rest : list Pos) :
  body s = head :: rest ->
  (exists s',
      move s = Some s'
      /\ direction s' <> reverse (direction s)
      /\ (next_direction s <> reverse (direction s) ->
          direction s' = next_direction s)
      /\ (next_direction s = reverse (direction s) ->
          direction s' = direction s)
      /\ next_direction s' = next_direction s
      /\ body s'
         = (fst head + fst (value (direction s')),
            snd head + snd (value (direction s')))
           :: removelast (body s)
      /\ List.length (body s') = List.length (body s))
  /\ (forall d,
         direction (set_direction s d) = direction s
         /\ body (set_direction s d) = body s
         /\ (d = reverse (direction s) -> set_direction s d = s)
         /\ (d <> reverse (direction s) ->
             next_direction (set_direction s d) = d)).
Proof.
  intros Hb. split; [now apply legacy_move_inv with (rest := rest)|].
  intros d. unfold set_direction.
  destruct (can_change_direction s d) eqn:E.
  - cbn. repeat split.
    intros H. apply can_change_direction_iff in H. congruence.
  - apply can_change_direction_iff in E.
    repeat split. intros H. contradiction.
Qed.

Lemma legacy_move_spec_witness :
  exists s',
    move (Legacy.snake Scenario.legacy_game) = Some s'
    /\ direction s' <> reverse (direction (Legacy.snake Scenario.legacy_game))
    /\ List.length (body s') = 4%nat.
Proof.
  destruct (legacy_move_spec (Legacy.snake Scenario.legacy_game) (10, 7)
              [(9, 7); (8, 7); (7, 7)] eq_refl)
    as [(s' & Hm & Hrev & _ & _ & _ & _ & Hlen) _].
  exists s'. split; [assumption|]. split; [assumption | exact Hlen].
Defined.




End LegacySnake.

Section LegacyGame.
Import Random Legacy.
Variables W H : Z.

Lemma hits_wall_iff (p : Pos) : hits_wall W H p = false <-> survivable W H p.
Proof.
  unfold hits_wall, survivable.
  rewrite !orb_false_iff, !Z.ltb_ge, Z.leb_gt. lia.
Qed.

Lemma randint_range (a b r v : Z) : randint a b r = Some v -> a <= v <= b.
Proof.
  unfold randint. destruct (Z.ltb_spec b a); [discriminate|].
  intros E. injection E as <-.
  pose proof (Z.mod_pos_bound r (b - a + 1) ltac:(lia)). lia.
Qed.

(** Any cell that the search returns was drawn in range and is free. *)
Lemma generate_position_sound (snake_body : list Pos) (cell : nat -> Z * Z)
    (fuel : nat) :
  forall attempts p,
    generate_position W H snake_body cell attempts fuel = Returned p ->
    survivable W H p /\ ~ In p snake_body.
Proof.
  induction fuel as [|fuel IH]; intros attempts p; cbn [generate_position];
    [discriminate|].
  destruct (randint 1 (W - 2) _) as [x|] eqn:Ex; [|discriminate].
  destruct (randint 1 (H - 1) _) as [y|] eqn:Ey; [|discriminate].
  destruct (pos_in (x, y) snake_body) eqn:Ein; cbn [negb].
  - apply IH.
  - intros E. injection E as <-.
    apply randint_range in Ex. apply randint_range in Ey.
    split; [split; assumption|].
    intros Hin. apply pos_in_In in Hin. congruence.
Qed.

Lemma generate_position_first (snake_body : list Pos) (cell : nat -> Z * Z)
    (attempts fuel : nat) :
  3 <= W -> 2 <= H ->
  generate_position W H snake_body cell attempts (S fuel)
  = if negb (pos_in (legacy_drawn W H (cell attempts)) snake_body)
    then Returned (legacy_drawn W H (cell attempts))
    else generate_position W H snake_body cell (S attempts) fuel.
Proof.
  intros HW HH. cbn [generate_position]. unfold randint.
  destruct (Z.ltb_spec (W - 2) 1); [lia|].
  destruct (Z.ltb_spec (H - 1) 1); [lia|].
  unfold legacy_drawn.
  replace (W - 2 - 1 + 1) with (W - 2) by lia.
  replace (H - 1 - 1 + 1) with (H - 1) by lia.
  reflexivity.
Qed.

Lemma generate_position_never_raises (snake_body : list Pos)
    (cell : nat -> Z * Z) (fuel : nat) :
  3 <= W -> 2 <= H ->
  forall attempts,
    generate_position W H snake_body cell attempts fuel <> Raises.
Proof.
  intros HW HH. induction fuel as [|fuel IH]; intros attempts;
    [discriminate|].
  rewrite generate_position_first by assumption.
  destruct (negb _); [discriminate | apply IH].
Qed.

Lemma generate_position_spins (snake_body : list Pos) (cell : nat -> Z * Z)
    (fuel : nat) :
  3 <= W -> 2 <= H ->
  (forall i, In (legacy_drawn W H (cell i)) snake_body) ->
  forall attempts,
    generate_position W H snake_body cell attempts fuel = Spins.
Proof.
  intros HW HH Hall. induction fuel as [|fuel IH]; intros attempts;
    [reflexivity|].
  rewrite generate_position_first by assumption.
  replace (pos_in _ _) with true by (symmetry; apply pos_in_In, Hall).
  apply IH.
Qed.

(** X22. Food of the single-file game is placed exactly on the cells on
    which the snake survives.  The grid has at least 20 columns and 15
    rows on every screen; on such a grid the search never raises; every
    cell it returns passes the wall test of [update] and is not on the
    snake; every free cell that passes the wall test can be drawn; and when
    every draw lands on the snake the search never returns. *)
Theorem legacy_food_placement (snake_body : list Pos) (cell : nat -> Z * Z) :
  (forall screen_width screen_height,
      20 <= GRID_WIDTH screen_width /\ 15 <= GRID_HEIGHT screen_height)
  /\ (forall fuel p,
         generate_position W H snake_body cell 0 fuel = Returned p ->
         hits_wall W H p = false /\ ~ In p snake_body)
  /\ (3 <= W -> 2 <= H ->
      (forall fuel, generate_position W H snake_body cell 0 fuel <> Raises)
      /\ (forall p,
             hits_wall W H p = false -> ~ In p snake_body ->
             exists cell',
               generate_position W H snake_body cell' 0 1 = Returned p)
      /\ ((forall i, In (legacy_drawn W H (cell i)) snake_body) ->
          forall fuel, generate_position W H snake_body cell 0 fuel = Spins)).
Proof.
  split; [|split].
  - intros sw sh. unfold GRID_WIDTH, GRID_HEIGHT. lia.
  - intros fuel p Hres.
    destruct (generate_position_sound _ _ _ _ _ Hres) as [Hs Hfree].
    split; [now apply hits_wall_iff | assumption].
  - intros HW HH. split; [|split].
    + intros fuel. now apply generate_position_never_raises.
    + intros [x y] Hwall Hfree. apply hits_wall_iff in Hwall.
      destruct Hwall as [Hx Hy]. cbn [fst snd] in Hx, Hy.
      exists (fun _ => (x - 1, y - 1)).
      rewrite generate_position_first by assumption.
      unfold legacy_drawn. cbn [fst snd].
      rewrite !Z.mod_small by lia.
      replace (1 + (x - 1)) with x by lia.
      replace (1 + (y - 1)) with y by lia.
      replace (pos_in (x, y) snake_body) with false; [reflexivity|].
      symmetry. apply not_true_iff_false. intros Hin.
      apply pos_in_In in Hin. contradiction.
    + intros Hall fuel. now apply generate_position_spins.
Qed.

End LegacyGame.

Lemma legacy_food_placement_witness :
  exists cell',
    Legacy.generate_position 20 15 [(10, 7); (9, 7)] cell' 0 1
    = Legacy.Returned (11, 7).
Proof.
  destruct (legacy_food_placement 20 15 [(10, 7); (9, 7)] (fun _ => (0, 0)))
    as (_ & _ & H).
  destruct (H ltac:(lia) ltac:(lia)) as (_ & Hdraw & _).
  apply Hdraw; [reflexivity|].
  cbn. intros [E|[E|[]]]; discriminate.
Defined.

Section LegacyUpdate.
Import Random Legacy.
Variables W H : Z.






End LegacyUpdate.



